(** * stealth-browser-mcp: behavioural simulation and session lifecycle

  A shallow embedding of the three TypeScript sources of the repository:

  - [human-behavior.ts]: the timing model and the input simulator
    ([humanDelay], [humanType], [humanMouseMovement],
    [randomMouseMovements], [humanScroll]);
  - [browser-profiles.ts]: the fixed catalog of fingerprint profiles and
    [getProfileByIndex];
  - [index.ts]: the process-wide session state, [safeExecute] and
    [getOrCreateBrowserAndPage].

  Modelling conventions.

  - A finite JavaScript [number] is a real number ([R]) and arithmetic on
    finite numbers is exact: the rounding of IEEE doubles is outside the
    model.  Where the code can leave the finite numbers (the logarithm of
    a zero sample in [humanDelay], or a caller that passes [Infinity]), a
    number is a [JsNum]: a real, one of the two infinities, or [NaN], with
    the IEEE rules for these.  The constant [Math.PI] is the double the
    code uses, not the real number pi.  Integer-valued quantities (loop
    counters, array indices, retry budgets) are [Z].
  - An [async] function is a state transformer returning a completion:
    either a normal value or a thrown JavaScript value, together with the
    new state.  The state survives a throw, which is what [try]/[catch]
    needs.
  - [Math.random()] reads the next element of a stream held in the state.
  - Calls into the Playwright driver are recorded in a chronological trace;
    whether such a call rejects is decided by an oracle of the state. *)

From Stdlib Require Import Reals Lra Lia ZArith List String Ascii Bool.
From Stdlib Require Import DecimalString QArith Qreals Machin.
Import ListNotations.

(* ===================================================================== *)
(** ** JavaScript values and numbers *)
(* ===================================================================== *)

Module Js.

(** The values this code base throws and catches.  [JsError name message]
    is an [Error] object; [new Error(m)] has the name ["Error"]. *)
Inductive JsValue : Type :=
| JsUndefined
| JsNull
| JsString (s : string)
| JsError (name : string) (message : string).

Definition new_Error (message : string) : JsValue :=
  JsError "Error" message.

(** [v instanceof Error] *)
Definition instanceof_Error (v : JsValue) : bool :=
  match v with
  | JsError _ _ => true
  | _ => false
  end.

(** JavaScript truthiness, as used by [a || b]. *)
Definition truthy (v : JsValue) : bool :=
  match v with
  | JsUndefined | JsNull => false
  | JsString s => negb (String.eqb s "")
  | JsError _ _ => true
  end.

(** [String.prototype.includes] *)
Fixpoint includes (s needle : string) : bool :=
  if String.prefix needle s then true
  else match s with
       | EmptyString => false
       | String _ rest => includes rest needle
       end.

(** The completion of an evaluation: a value, or a thrown value. *)
Inductive Completion (A : Type) : Type :=
| Normal (a : A)
| Throw (e : JsValue).
Arguments Normal {A} a.
Arguments Throw {A} e.

(** An [async] function over the state [S]: it completes normally or
    throws, and the state survives either way. *)
Definition Async (S A : Type) : Type := S -> Completion A * S.

Definition ret {S A} (a : A) : Async S A := fun s => (Normal a, s).

Definition throw {S A} (x : JsValue) : Async S A := fun s => (Throw x, s).

Definition bind {S A B} (c : Async S A) (k : A -> Async S B) : Async S B :=
  fun s =>
    match c s with
    | (Normal a, s') => k a s'
    | (Throw x, s') => (Throw x, s')
    end.

(** [try { c } catch (error) { h error }] *)
Definition try_catch {S A} (c : Async S A) (h : JsValue -> Async S A)
  : Async S A :=
  fun s =>
    match c s with
    | (Normal a, s') => (Normal a, s')
    | (Throw x, s') => h x s'
    end.

Declare Scope async_scope.
Delimit Scope async_scope with async.
Notation "x <- c ;; k" := (bind c (fun x => k))
  (at level 61, c at next level, right associativity) : async_scope.
Notation "c ;; k" := (bind c (fun _ => k))
  (at level 61, right associativity) : async_scope.

(** Reading an array at an integer index; [None] is [undefined]. *)
Definition array_get {A} (l : list A) (i : Z) : option A :=
  if (i <? 0)%Z then None else nth_error l (Z.to_nat i).

Local Open Scope R_scope.

(** [Math.floor] of a finite number. *)
Definition Math_floor (x : R) : Z := Zfloor x.

(** [a || b] on numbers: [0] is the only falsy real. *)
Definition or_number (a b : R) : R :=
  if Req_dec_T a 0 then b else a.

(** [Math.PI]: the double [0x1.921fb54442d18p+1], which lies a little
    below pi. *)
Definition Math_PI : R := 884279719003555 / 281474976710656.

(** *** Numbers that may not be finite *)

Inductive JsNum : Type :=
| Fin (r : R)
| PosInf
| NegInf
| NaN.

Definition js_neg (a : JsNum) : JsNum :=
  match a with
  | Fin x => Fin (- x)
  | PosInf => NegInf
  | NegInf => PosInf
  | NaN => NaN
  end.

Definition js_add (a b : JsNum) : JsNum :=
  match a, b with
  | NaN, _ | _, NaN => NaN
  | Fin x, Fin y => Fin (x + y)
  | PosInf, NegInf | NegInf, PosInf => NaN
  | PosInf, _ | _, PosInf => PosInf
  | NegInf, _ | _, NegInf => NegInf
  end.

Definition js_sub (a b : JsNum) : JsNum := js_add a (js_neg b).

Definition signed_inf (positive : bool) : JsNum :=
  if positive then PosInf else NegInf.

(** An infinity of the given sign times the finite [r]: by the sign of
    [r], and [NaN] when [r] is zero. *)
Definition inf_times (positive : bool) (r : R) : JsNum :=
  if Rlt_dec 0 r then signed_inf positive
  else if Rlt_dec r 0 then signed_inf (negb positive)
       else NaN.

Definition js_mul (a b : JsNum) : JsNum :=
  match a, b with
  | NaN, _ | _, NaN => NaN
  | Fin x, Fin y => Fin (x * y)
  | PosInf, Fin y | Fin y, PosInf => inf_times true y
  | NegInf, Fin y | Fin y, NegInf => inf_times false y
  | PosInf, PosInf | NegInf, NegInf => PosInf
  | PosInf, NegInf | NegInf, PosInf => NegInf
  end.

(** Division; a zero divisor is taken as [+0]. *)
Definition js_div (a b : JsNum) : JsNum :=
  match a, b with
  | NaN, _ | _, NaN => NaN
  | Fin x, Fin y => if Req_dec_T y 0 then inf_times true x else Fin (x / y)
  | Fin _, PosInf | Fin _, NegInf => Fin 0
  | PosInf, Fin y => if Rlt_dec y 0 then NegInf else PosInf
  | NegInf, Fin y => if Rlt_dec y 0 then PosInf else NegInf
  | _, _ => NaN
  end.

(** [Math.log]: minus infinity at zero, [NaN] below. *)
Definition Math_log (a : JsNum) : JsNum :=
  match a with
  | Fin x => if Rlt_dec 0 x then Fin (ln x)
             else if Rlt_dec x 0 then NaN else NegInf
  | PosInf => PosInf
  | NegInf | NaN => NaN
  end.

Definition Math_sqrt (a : JsNum) : JsNum :=
  match a with
  | Fin x => if Rlt_dec x 0 then NaN else Fin (sqrt x)
  | PosInf => PosInf
  | NegInf | NaN => NaN
  end.

Definition Math_cos (a : JsNum) : JsNum :=
  match a with
  | Fin x => Fin (cos x)
  | _ => NaN
  end.

(** [Math.round]: to the nearest integer, halves upwards. *)
Definition Math_round (a : JsNum) : JsNum :=
  match a with
  | Fin x => Fin (IZR (Zfloor (x + / 2)))
  | other => other
  end.

(** [Math.max] and [Math.min]: [NaN] as soon as one argument is [NaN]. *)
Definition Math_max (a b : JsNum) : JsNum :=
  match a, b with
  | NaN, _ | _, NaN => NaN
  | PosInf, _ | _, PosInf => PosInf
  | NegInf, other | other, NegInf => other
  | Fin x, Fin y => Fin (Rmax x y)
  end.

Definition Math_min (a b : JsNum) : JsNum :=
  match a, b with
  | NaN, _ | _, NaN => NaN
  | NegInf, _ | _, NegInf => NegInf
  | PosInf, other | other, PosInf => other
  | Fin x, Fin y => Fin (Rmin x y)
  end.

(** The time a timer set with [setTimeout(f, ms)] waits at least: a
    [NaN], negative or infinite delay is no delay. *)
Definition timer_ms (ms : JsNum) : R :=
  match ms with
  | Fin x => Rmax x 0
  | _ => 0
  end.

End Js.
Import Js.

(* ===================================================================== *)
(** ** human-behavior.ts *)
(* ===================================================================== *)

Module HumanBehavior.

Local Open Scope R_scope.

(** Keys given to [page.keyboard.press]: a character of the text (a code
    point) or the named key [Backspace]. *)
Inductive Key : Type :=
| KeyChar (c : N)
| KeyBackspace.

(** Effects on the page, in the order the driver sees them. *)
Inductive Event : Type :=
| EFill                          (* element.fill('') *)
| EClick (clickCount : Z)        (* element.click({clickCount}) *)
| EKeyboardPress (k : Key)       (* page.keyboard.press(k) *)
| EType (c : N)                  (* element.type(c, {delay: 0}) *)
| EMouseMove (x y : R)           (* page.mouse.move(x, y) *)
| EScrollHeight                  (* page.evaluate(() => document.body.scrollHeight) *)
| EScrollBy (dy : R)             (* page.evaluate(d => window.scrollBy(0, d), dy) *)
| EWarn                          (* console.warn(...) *)
| ESleep (ms : JsNum).           (* await new Promise(r => setTimeout(r, ms)) *)

Record Env : Type := mkEnv {
  random_stream : nat -> R;      (* successive results of Math.random() *)
  random_used : nat;             (* how many have been drawn *)
  clock : R;                     (* Date.now(), in milliseconds *)
  lag : nat -> R;                (* extra time taken by the n-th effect *)
  driver_fault : nat -> option JsValue; (* rejection of the n-th effect *)
  trace : list Event             (* effects so far, oldest first *)
}.

Definition Async : Type -> Type := Js.Async Env.
Local Open Scope async_scope.

Definition Math_random : Async R :=
  fun e =>
    (Normal (random_stream e (random_used e)),
     mkEnv (random_stream e) (S (random_used e)) (clock e) (lag e)
           (driver_fault e) (trace e)).

(** An awaited effect that takes at least [dur] milliseconds.  It is
    appended to the trace, the clock advances by [dur] plus the lag of this
    effect, and the effect rejects when the oracle says so. *)
Definition effect (ev : Event) (dur : R) (may_reject : bool) : Async unit :=
  fun e =>
    let n := List.length (trace e) in
    let e' := mkEnv (random_stream e) (random_used e)
                    (clock e + dur + lag e n) (lag e)
                    (driver_fault e) (trace e ++ [ev]) in
    match (if may_reject then driver_fault e n else None) with
    | Some x => (Throw x, e')
    | None => (Normal tt, e')
    end.

Definition driver_call (ev : Event) : Async unit := effect ev 0 true.
Definition sleep (ms : JsNum) : Async unit :=
  effect (ESleep ms) (timer_ms ms) false.
Definition console_warn : Async unit := effect EWarn 0 false.

(** *** humanDelay *)

(** The closure [random] of [humanDelay]: Box-Muller from two uniform
    samples.  [Math.log(u1)] is minus infinity when [u1] is zero, and then
    [z0] is an infinity, or [NaN] when the cosine is zero. *)
Definition box_muller (u1 u2 : R) : JsNum :=
  js_mul (Math_sqrt (js_mul (Fin (-2)) (Math_log (Fin u1))))
         (Math_cos (Fin (2 * Math_PI * u2))).

(** The value of [delay] that [humanDelay(min, max)] hands to
    [setTimeout], for the two samples [u1] and [u2]. *)
Definition humanDelay_ms (min max : JsNum) (u1 u2 : R) : JsNum :=
  let mean := js_div (js_add min max) (Fin 2) in
  let stdDev := js_div (js_sub max min) (Fin 4) in
  let delay := Math_round (js_add (js_mul (box_muller u1 u2) stdDev) mean) in
  Math_max min (Math_min max delay).

Definition humanDelay (min max : JsNum) : Async unit :=
  u1 <- Math_random ;;
  u2 <- Math_random ;;
  sleep (humanDelay_ms min max u1 u2).

(** *** The page and the element, as far as this module reads them *)

Record Viewport : Type := mkViewport { vp_width : R; vp_height : R }.

(** [page.viewportSize()] is an object or [null]. *)
Record Page : Type := mkPage { viewportSize : option Viewport }.

Record BoundingBox : Type :=
  mkBox { box_x : R; box_y : R; box_width : R; box_height : R }.

(** [element.boundingBox()] resolves to a box or to [null]. *)
Record ElementHandle : Type := mkElement { boundingBox : option BoundingBox }.

(** *** humanType *)

(** What the regular expression [\s] matches in JavaScript. *)
Definition js_whitespace (c : N) : bool :=
  ((9 <=? c) && (c <=? 13) || (c =? 32) || (c =? 160) || (c =? 5760)
   || (8192 <=? c) && (c <=? 8202) || (c =? 8232) || (c =? 8233)
   || (c =? 8239) || (c =? 8287) || (c =? 12288) || (c =? 65279))%N.

(** [/[\s,.?!;:]/.test(char)] *)
Definition pause_class (c : N) : bool :=
  (js_whitespace c
   || (c =? 44) || (c =? 46) || (c =? 63) || (c =? 33) || (c =? 59)
   || (c =? 58))%N.

Definition avgTypingSpeed (r : R) : Z := Math_floor (r * 300) + 200.

Definition baseDelay (speed : Z) : R := 60000 / IZR speed.

Definition factor (c : N) : R := if pause_class c then 2 else 1.

Definition variation (r : R) : R := r * 0.5 + 0.75.

(** The per-character [delay] of the loop of [humanType], for the base
    delay [base] and the sample [r] drawn for this character. *)
Definition charDelay (base : R) (c : N) (r : R) : Z :=
  Math_floor (base * factor c * variation r).

Definition clear_field : Async unit :=
  try_catch (driver_call EFill)
    (fun _ =>
       try_catch (driver_call (EClick 3) ;;
                  driver_call (EKeyboardPress KeyBackspace))
         (fun _ => console_warn)).

Fixpoint type_chars (base : R) (text : list N) : Async unit :=
  match text with
  | [] => ret tt
  | char :: rest =>
      r <- Math_random ;;
      let delay := IZR (charDelay base char r) in
      try_catch (driver_call (EKeyboardPress (KeyChar char)))
        (fun _ => driver_call (EType char)) ;;
      humanDelay (Fin delay) (Fin (delay + 50)) ;;
      type_chars base rest
  end.

Definition humanType (page : Page) (element : ElementHandle)
           (text : list N) : Async unit :=
  r <- Math_random ;;
  let base := baseDelay (avgTypingSpeed r) in
  clear_field ;;
  type_chars base text ;;
  humanDelay (Fin 300) (Fin 800).

(** *** humanMouseMovement *)

Definition default_viewport : Viewport := mkViewport 1024 768.

Definition viewport_of (page : Page) : Viewport :=
  match viewportSize page with
  | Some v => v
  | None => default_viewport
  end.

Definition progress (i steps : Z) : R := IZR i / IZR steps.

(** [Math.sin(progress * Math.PI)]: the sine of a multiple of the
    constant [Math.PI]. *)
Definition jitterFactor (i steps : Z) : R :=
  sin (progress i steps * Math_PI).

(** [(Math.random() - 0.5) * 20 * jitterFactor] for the sample [r]. *)
Definition jitter (r : R) (i steps : Z) : R :=
  (r - 0.5) * 20 * jitterFactor i steps.

Definition moveStep (startX startY targetX targetY : R) (i steps : Z)
  : Async unit :=
  let moveX := startX + (targetX - startX) * progress i steps in
  let moveY := startY + (targetY - startY) * progress i steps in
  rx <- Math_random ;;
  ry <- Math_random ;;
  driver_call (EMouseMove (moveX + jitter rx i steps)
                          (moveY + jitter ry i steps)) ;;
  humanDelay (Fin 20) (Fin 50).

(** [for (let i = ...; i <= steps; i++)] with [n] iterations left. *)
Fixpoint moveSteps (n : nat) (startX startY targetX targetY : R)
         (i steps : Z) : Async unit :=
  match n with
  | O => ret tt
  | S n' =>
      moveStep startX startY targetX targetY i steps ;;
      moveSteps n' startX startY targetX targetY (i + 1) steps
  end.

Definition stepCount (r : R) : Z := Math_floor (r * 5) + 5.

Definition humanMouseMovement (page : Page) (element : ElementHandle)
  : Async unit :=
  match boundingBox element with
  | None => ret tt
  | Some box =>
      let viewport := viewport_of page in
      r1 <- Math_random ;;
      let startX := r1 * vp_width viewport in
      r2 <- Math_random ;;
      let startY := r2 * vp_height viewport in
      r3 <- Math_random ;;
      let targetX := box_x box + box_width box * (0.25 + r3 * 0.5) in
      r4 <- Math_random ;;
      let targetY := box_y box + box_height box * (0.25 + r4 * 0.5) in
      r5 <- Math_random ;;
      let steps := stepCount r5 in
      moveSteps (Z.to_nat (steps + 1)) startX startY targetX targetY 0 steps
  end.

Definition humanClick (page : Page) (element : ElementHandle) : Async unit :=
  humanMouseMovement page element ;;
  humanDelay (Fin 50) (Fin 150) ;;
  driver_call (EClick 1) ;;
  humanDelay (Fin 150) (Fin 400).

(** *** randomMouseMovements *)

Definition scanStep (viewportWidth viewportHeight : R) : Async unit :=
  rx <- Math_random ;;
  let targetX := rx * viewportWidth in
  ry <- Math_random ;;
  let targetY := ry * viewportHeight in
  rs <- Math_random ;;
  let speed := rs * 50 + 50 in
  driver_call (EMouseMove targetX targetY) ;;
  humanDelay (Fin speed) (Fin (speed + 30)).

(** [while (Date.now() - startTime < duration) { ... }].  The loop is
    bounded by the clock, not by a counter, so the model takes fuel and
    answers [None] when the fuel runs out before the loop exits. *)
Fixpoint scanLoop (fuel : nat) (startTime duration : R)
         (viewportWidth viewportHeight : R) (e : Env)
  : option (Completion unit * Env) :=
  match fuel with
  | O => None
  | S fuel' =>
      if Rlt_dec (clock e - startTime) duration then
        match scanStep viewportWidth viewportHeight e with
        | (Normal _, e') =>
            scanLoop fuel' startTime duration viewportWidth viewportHeight e'
        | (Throw x, e') => Some (Throw x, e')
        end
      else Some (Normal tt, e)
  end.

Definition randomMouseMovements (fuel : nat) (page : Page) (duration : R)
           (e : Env) : option (Completion unit * Env) :=
  let startTime := clock e in
  let viewport := viewport_of page in
  scanLoop fuel startTime duration (vp_width viewport) (vp_height viewport) e.

(** *** humanScroll *)

(** [page.viewportSize()?.height || 800] *)
Definition scrollViewportHeight (page : Page) : R :=
  match viewportSize page with
  | Some v => or_number (vp_height v) 800
  | None => 800
  end.

Definition scrollCount (r : R) : Z := Math_floor (r * 3) + 2.

Definition scrollDistance (r viewportHeight : R) : R :=
  (r * 0.5 + 0.75) * viewportHeight.

(** [Math.random() > 0.2 ? 1 : -1] *)
Definition scrollDirection (r : R) : R :=
  if Rgt_dec r 0.2 then 1 else -1.

Definition scrollStep (viewportHeight : R) : Async unit :=
  r1 <- Math_random ;;
  r2 <- Math_random ;;
  driver_call (EScrollBy (scrollDistance r1 viewportHeight
                          * scrollDirection r2)) ;;
  humanDelay (Fin 500) (Fin 1500).

Fixpoint scrollSteps (n : nat) (viewportHeight : R) : Async unit :=
  match n with
  | O => ret tt
  | S n' => scrollStep viewportHeight ;; scrollSteps n' viewportHeight
  end.

Definition humanScroll (page : Page) : Async unit :=
  driver_call EScrollHeight ;;
  let viewportHeight := scrollViewportHeight page in
  r <- Math_random ;;
  scrollSteps (Z.to_nat (scrollCount r)) viewportHeight.

(** *** Assumptions on the environment and observations of the trace *)

(** Every [Math.random()] lies in [[0, 1)]. *)
Definition uniform_samples (e : Env) : Prop :=
  forall n, 0 <= random_stream e n < 1.

(** When a sample is exactly zero, the cosine of the sample that follows
    is not exactly zero: Box-Muller never multiplies an infinity by zero.
    In doubles the cosine is never zero, its argument being a rational
    multiple of [Math.PI]; the exact cosine of the model vanishes at
    isolated real samples, which this assumption leaves out. *)
Definition cosine_nonzero (e : Env) : Prop :=
  forall n, random_stream e n = 0 ->
            cos (2 * Math_PI * random_stream e (S n)) <> 0.

(** No driver call rejects. *)
Definition driver_reliable (e : Env) : Prop :=
  forall n, driver_fault e n = None.

(** No effect takes less time than its nominal duration. *)
Definition lag_nonneg (e : Env) : Prop :=
  forall n, 0 <= lag e n.

(** Every effect takes exactly its nominal duration. *)
Definition lag_free (e : Env) : Prop :=
  forall n, lag e n = 0.

(** The oracles are read, never written. *)
Definition same_oracles (e e' : Env) : Prop :=
  random_stream e' = random_stream e /\
  lag e' = lag e /\
  driver_fault e' = driver_fault e.

(** The arguments of the [window.scrollBy] calls of a trace. *)
Definition scroll_args (evs : list Event) : list R :=
  flat_map (fun ev => match ev with EScrollBy d => [d] | _ => [] end) evs.


(** The number of [page.mouse.move] calls of a trace. *)
Definition mouse_moves (evs : list Event) : nat :=
  List.length
    (filter (fun ev => match ev with EMouseMove _ _ => true | _ => false end)
            evs).

(** The effects of idle scanning: cursor moves, and delays of at least
    50 ms. *)
Definition scan_event_ok (ev : Event) : Prop :=
  match ev with
  | EMouseMove _ _ => True
  | ESleep (Fin d) => 50 <= d
  | _ => False
  end.

(** A bound on the iterations of idle scanning for [duration]. *)
Definition scan_bound (duration : R) : nat :=
  Z.to_nat (Zceil (duration / 50)).

(** A quiescent environment, for concrete runs. *)
Definition idle_env : Env :=
  mkEnv (fun _ => 0) 0 0 (fun _ => 0) (fun _ => None) [].


End HumanBehavior.


(* ===================================================================== *)
(** ** browser-profiles.ts *)
(* ===================================================================== *)

Module BrowserProfiles.

Local Open Scope string_scope.

Record ProfileViewport : Type :=
  mkProfileViewport { width : Z; height : Z }.

Record BrowserProfile : Type := mkProfile {
  userAgent : string;
  viewport : ProfileViewport;
  locale : string;
  timezone : string;
  platform : string;
  webglVendor : option string;
  webglRenderer : option string;
  acceptLanguage : string;
  deviceScaleFactor : R;
  colorDepth : Z;
  hasTouch : bool
}.

Definition windowsChrome : BrowserProfile :=
  mkProfile
    "Mozilla/5.0 (Windows NT 10.0; Win64; x64) AppleWebKit/537.36 (KHTML, like Gecko) Chrome/136.0.7103.25 Safari/537.36"
    (mkProfileViewport 1920 1080) "en-US" "America/New_York" "Win32"
    (Some "Google Inc. (Intel)")
    (Some "ANGLE (Intel, Intel(R) UHD Graphics Direct3D11 vs_5_0 ps_5_0, D3D11)")
    "en-US,en;q=0.9" 1%R 24 false.

Definition windowsFirefox : BrowserProfile :=
  mkProfile
    "Mozilla/5.0 (Windows NT 10.0; Win64; x64; rv:123.0) Gecko/20100101 Firefox/123.0"
    (mkProfileViewport 1680 1050) "en-GB" "Europe/London" "Win32"
    (Some "Mozilla") (Some "Mozilla")
    "en-GB,en;q=0.9,de;q=0.8" 1%R 24 false.

Definition macSafari : BrowserProfile :=
  mkProfile
    "Mozilla/5.0 (Macintosh; Intel Mac OS X 10_15_7) AppleWebKit/605.1.15 (KHTML, like Gecko) Version/17.0 Safari/605.1.15"
    (mkProfileViewport 2560 1600) "fr-FR" "Europe/Paris" "MacIntel"
    (Some "Apple Inc.") (Some "Apple GPU")
    "fr-FR,fr;q=0.9,en-US;q=0.8,en;q=0.7" 2%R 30 false.

Definition ipadSafari : BrowserProfile :=
  mkProfile
    "Mozilla/5.0 (iPad; CPU OS 17_4 like Mac OS X) AppleWebKit/605.1.15 (KHTML, like Gecko) Version/17.0 Mobile/15E148 Safari/604.1"
    (mkProfileViewport 1024 1366) "it-IT" "Europe/Rome" "iPad"
    None None
    "it-IT,it;q=0.9,en-US;q=0.8,en;q=0.7" 2%R 24 true.

Definition androidChrome : BrowserProfile :=
  mkProfile
    "Mozilla/5.0 (Linux; Android 14; SM-G998B) AppleWebKit/537.36 (KHTML, like Gecko) Chrome/136.0.7103.25 Mobile Safari/537.36"
    (mkProfileViewport 412 915) "de-DE" "Europe/Berlin" "Linux armv8l"
    (Some "Google Inc.")
    (Some "ANGLE (Samsung, Mali-G78 MP14, OpenGL ES 3.2 v1.r32p1.9604e17)")
    "de-DE,de;q=0.9,en;q=0.8" 2.625%R 24 true.

Definition browserProfiles : list BrowserProfile :=
  [windowsChrome; windowsFirefox; macSafari; ipadSafari; androidChrome].

Definition catalogSize : Z := Z.of_nat (List.length browserProfiles).

(** [getRandomProfile], for the sample [r] returned by [Math.random()]. *)
Definition getRandomProfile (r : R) : option BrowserProfile :=
  let randomIndex := Math_floor (r * IZR catalogSize) in
  array_get browserProfiles randomIndex.

(** [getProfileByIndex].  On integers the operator [%] of JavaScript is
    the remainder of the truncated division, [Z.rem]: its sign is the sign
    of [index].  The result [None] is [undefined]. *)
Definition getProfileByIndex (index : Z) : option BrowserProfile :=
  let safeIndex := Z.rem index catalogSize in
  array_get browserProfiles safeIndex.

(** What the specification describes: [catalog[i mod len(catalog)]] with
    the mathematical modulo, which is never negative. *)
Definition spec_getProfileByIndex (i : Z) : option BrowserProfile :=
  nth_error browserProfiles (Z.to_nat (i mod catalogSize)).

End BrowserProfiles.

(* ===================================================================== *)
(** ** index.ts: session state, safeExecute, getOrCreateBrowserAndPage *)
(* ===================================================================== *)

Module Server.

Import BrowserProfiles.
Local Open Scope string_scope.
Local Open Scope async_scope.

(** Handles of the driver are object identities. *)
Definition Browser : Type := nat.
Definition Page : Type := nat.

(** What the process does to the outside, in order. *)
Inductive Event : Type :=
| EInvoke                                   (* fn() *)
| EAttemptFailed (attempt retries : Z) (error : JsValue)
                                            (* console.warn(`Попытка n/m ...`, error) *)
| EConsole                                  (* any other console output *)
| EClose (b : Browser)                      (* browser.close() *)
| ELaunch (headless : bool) (userAgent locale : string)
                                            (* chromium.launch({...}) *)
| ENewPage (b : Browser)                    (* browser.newPage() *)
| ESetViewportSize (p : Page) (v : ProfileViewport)
| EAddInitScript (p : Page) (profile : BrowserProfile)
| ESetExtraHTTPHeaders (p : Page) (acceptLanguage : string)
| ESleep (ms : Z).                          (* await new Promise(r => setTimeout(r, ms)) *)

Record World : Type := mkWorld {
  globalBrowser : option Browser;
  globalPage : option Page;
  lastSnapshot : option string;
  currentProfileIndex : Z;
  open_browsers : list Browser;  (* browsers launched and not closed *)
  next_handle : nat;             (* identity of the next driver object *)
  random_stream : nat -> R;
  random_used : nat;
  driver_fault : nat -> option JsValue;  (* rejection of the n-th effect *)
  log : list Event
}.

Definition Async : Type -> Type := Js.Async World.

Definition set_globalBrowser (v : option Browser) : Async unit :=
  fun w => (Normal tt,
            mkWorld v (globalPage w) (lastSnapshot w)
                    (currentProfileIndex w) (open_browsers w)
                    (next_handle w) (random_stream w) (random_used w)
                    (driver_fault w) (log w)).

Definition set_globalPage (v : option Page) : Async unit :=
  fun w => (Normal tt,
            mkWorld (globalBrowser w) v (lastSnapshot w)
                    (currentProfileIndex w) (open_browsers w)
                    (next_handle w) (random_stream w) (random_used w)
                    (driver_fault w) (log w)).

Definition set_lastSnapshot (v : option string) : Async unit :=
  fun w => (Normal tt,
            mkWorld (globalBrowser w) (globalPage w) v
                    (currentProfileIndex w) (open_browsers w)
                    (next_handle w) (random_stream w) (random_used w)
                    (driver_fault w) (log w)).

Definition set_currentProfileIndex (v : Z) : Async unit :=
  fun w => (Normal tt,
            mkWorld (globalBrowser w) (globalPage w) (lastSnapshot w)
                    v (open_browsers w)
                    (next_handle w) (random_stream w) (random_used w)
                    (driver_fault w) (log w)).

Definition set_open_browsers (v : list Browser) : Async unit :=
  fun w => (Normal tt,
            mkWorld (globalBrowser w) (globalPage w) (lastSnapshot w)
                    (currentProfileIndex w) v
                    (next_handle w) (random_stream w) (random_used w)
                    (driver_fault w) (log w)).

Definition get {A} (field : World -> A) : Async A :=
  fun w => (Normal (field w), w).

(** A new driver object. *)
Definition fresh_handle : Async nat :=
  fun w => (Normal (next_handle w),
            mkWorld (globalBrowser w) (globalPage w) (lastSnapshot w)
                    (currentProfileIndex w) (open_browsers w)
                    (S (next_handle w)) (random_stream w) (random_used w)
                    (driver_fault w) (log w)).

Definition Math_random : Async R :=
  fun w => (Normal (random_stream w (random_used w)),
            mkWorld (globalBrowser w) (globalPage w) (lastSnapshot w)
                    (currentProfileIndex w) (open_browsers w)
                    (next_handle w) (random_stream w) (S (random_used w))
                    (driver_fault w) (log w)).

(** An effect is appended to the log; a driver call rejects when the
    oracle says so. *)
Definition effect (ev : Event) (may_reject : bool) : Async unit :=
  fun w =>
    let n := List.length (log w) in
    let w' := mkWorld (globalBrowser w) (globalPage w) (lastSnapshot w)
                      (currentProfileIndex w) (open_browsers w)
                      (next_handle w) (random_stream w) (random_used w)
                      (driver_fault w) (log w ++ [ev]) in
    match (if may_reject then driver_fault w n else None) with
    | Some x => (Throw x, w')
    | None => (Normal tt, w')
    end.

Definition driver_call (ev : Event) : Async unit := effect ev true.
Definition console : Async unit := effect EConsole false.
Definition sleep (ms : Z) : Async unit := effect (ESleep ms) false.

(** [browser.close()]: when it resolves the browser is no longer open. *)
Definition browser_close (b : Browser) : Async unit :=
  driver_call (EClose b) ;;
  still_open <- get open_browsers ;;
  set_open_browsers (remove Nat.eq_dec b still_open).

(** [chromium.launch(...)]: when it resolves there is a new open browser. *)
Definition chromium_launch (headless : bool) (userAgent locale : string)
  : Async Browser :=
  driver_call (ELaunch headless userAgent locale) ;;
  b <- fresh_handle ;;
  still_open <- get open_browsers ;;
  set_open_browsers (b :: still_open) ;;
  ret b.

Definition browser_newPage (b : Browser) : Async Page :=
  driver_call (ENewPage b) ;;
  fresh_handle.

(** *** getOrCreateBrowserAndPage *)

Definition select_profile (useRandomProfile : bool)
  : Async (option BrowserProfile) :=
  if useRandomProfile then
    r <- Math_random ;; ret (getRandomProfile r)
  else
    index <- get currentProfileIndex ;; ret (getProfileByIndex index).

Definition advance_profile_index (useRandomProfile : bool) : Async unit :=
  if negb useRandomProfile then
    index <- get currentProfileIndex ;;
    set_currentProfileIndex (Z.rem (index + 1) 5)
  else ret tt.

Definition close_existing_session : Async unit :=
  existing <- get globalBrowser ;;
  match existing with
  | Some b =>
      browser_close b ;;
      set_globalBrowser None ;;
      set_globalPage None
  | None => ret tt
  end.

Definition getOrCreateBrowserAndPage (headless useRandomProfile : bool)
  : Async (Browser * Page) :=
  selected <- select_profile useRandomProfile ;;
  advance_profile_index useRandomProfile ;;
  close_existing_session ;;
  match selected with
  | None =>
      (* reading [profile.userAgent] of [undefined] *)
      throw (JsError "TypeError" "Cannot read properties of undefined")
  | Some profile =>
      b <- chromium_launch headless (userAgent profile) (locale profile) ;;
      set_globalBrowser (Some b) ;;
      p <- browser_newPage b ;;
      set_globalPage (Some p) ;;
      driver_call (ESetViewportSize p (viewport profile)) ;;
      driver_call (EAddInitScript p profile) ;;
      driver_call (ESetExtraHTTPHeaders p (acceptLanguage profile)) ;;
      browser <- get globalBrowser ;;
      page <- get globalPage ;;
      match browser, page with
      | Some browser, Some page => ret (browser, page)
      | _, _ =>
          throw (new_Error "Не удалось создать браузер или страницу")
      end
  end.

(** *** safeExecute *)

(** How one invocation of the guarded operation ends, as the race sees it:
    it resolves or rejects before the timer fires, or the timer fires
    first.  The operation may change the state on the way. *)
Inductive Settlement (T : Type) : Type :=
| Resolves (v : T)
| Rejects (e : JsValue)
| TimerFirst.
Arguments Resolves {T} v.
Arguments Rejects {T} e.
Arguments TimerFirst {T}.

Definition Operation (T : Type) : Type := World -> Settlement T * World.

Definition string_of_Z (z : Z) : string :=
  NilZero.string_of_int (Z.to_int z).

(** [new Error(`Таймаут запроса после ${timeoutMs}ms`)] *)
Definition timeout_error (timeoutMs : Z) : JsValue :=
  new_Error ("Таймаут запроса после " ++ string_of_Z timeoutMs ++ "ms").

(** [await Promise.race([fn(), timeoutPromise])] *)
Definition race {T} (fn : Operation T) (timeoutMs : Z) : Async T :=
  effect EInvoke false ;;
  fun w =>
    match fn w with
    | (Resolves v, w') => (Normal v, w')
    | (Rejects e, w') => (Throw e, w')
    | (TimerFirst, w') => (Throw (timeout_error timeoutMs), w')
    end.

(** The test that selects the cleanup: the error is an [Error] whose
    message contains one of the two timeout signatures. *)
Definition is_timeout_error (error : JsValue) : bool :=
  match error with
  | JsError _ message =>
      includes message "Таймаут" || includes message "timed out"
  | _ => false
  end.

Definition cleanup_after_timeout : Async unit :=
  console ;;
  existing <- get globalBrowser ;;
  match existing with
  | Some b =>
      try_catch
        (browser_close b ;;
         set_globalBrowser None ;;
         set_globalPage None ;;
         console)
        (fun _ => console)
  | None => ret tt
  end ;;
  set_lastSnapshot None.

Definition all_attempts_failed : JsValue :=
  new_Error "Все попытки выполнения запроса неудачны".

(** [throw lastError || new Error(...)] *)
Definition throw_lastError {T} (lastError : option JsValue) : Async T :=
  match lastError with
  | Some error => if truthy error then throw error
                  else throw all_attempts_failed
  | None => throw all_attempts_failed
  end.

(** The [for] loop of [safeExecute] with [n] iterations left. *)
Fixpoint safeExecute_from {T} (fn : Operation T) (timeoutMs retries : Z)
         (n : nat) (attempt : Z) (lastError : option JsValue) : Async T :=
  match n with
  | O => throw_lastError lastError
  | S n' =>
      try_catch (race fn timeoutMs)
        (fun error =>
           effect (EAttemptFailed (attempt + 1) retries error) false ;;
           (if is_timeout_error error then cleanup_after_timeout
            else ret tt) ;;
           (if (attempt <? retries - 1)%Z
            then console ;; sleep (1000 * (attempt + 1))
            else ret tt) ;;
           safeExecute_from fn timeoutMs retries n' (attempt + 1)
                            (Some error))
  end.

Definition safeExecute {T} (fn : Operation T) (timeoutMs retries : Z)
  : Async T :=
  safeExecute_from fn timeoutMs retries (Z.to_nat retries) 0 None.

(** *** The handler of unhandled rejections

    The branch for a rejection whose [code] is [-32001].  There
    [globalBrowser.close()] is not awaited: its rejection goes to the
    [.catch] callback, which only logs, and the assignments that follow run
    in any case.  The model runs the callback at once. *)
Definition detached_close (b : Browser) : Async unit :=
  try_catch (browser_close b) (fun _ => console).

Definition cleanup_on_unhandled_rejection : Async unit :=
  console ;;
  existing <- get globalBrowser ;;
  match existing with
  | Some b =>
      try_catch
        (detached_close b ;;
         set_globalBrowser None ;;
         set_globalPage None ;;
         console)
        (fun _ => console)
  | None => ret tt
  end ;;
  set_lastSnapshot None.

End Server.

(* ===================================================================== *)
(** ** Observations, assumptions and sample inputs for index.ts *)
(* ===================================================================== *)

Module Observe.

Import BrowserProfiles Server.
Local Open Scope string_scope.
Local Open Scope list_scope.

(** The session invariant: the only browser that can be open is the one
    [globalBrowser] refers to, the page handle is set only together with
    the browser handle, and every handle in use is older than the next
    one. *)
Definition session_invariant (w : World) : Prop :=
  (open_browsers w = [] \/
   exists b, open_browsers w = [b] /\ globalBrowser w = Some b) /\
  (globalBrowser w = None -> globalPage w = None) /\
  (forall b, globalBrowser w = Some b -> (b < next_handle w)%nat) /\
  (forall p, globalPage w = Some p -> (p < next_handle w)%nat).

(** The events only the guard itself produces. *)
Definition guard_event (ev : Event) : bool :=
  match ev with
  | EInvoke | EAttemptFailed _ _ _ => true
  | _ => false
  end.

(** The browsers left open once the existing session is closed. *)
Definition open_after_close (w : World) : list Browser :=
  match globalBrowser w with
  | Some previous => remove Nat.eq_dec previous (open_browsers w)
  | None => open_browsers w
  end.

(** A run of events none of which is an event of the guard. *)
Definition quiet (evs : list Event) : Prop :=
  forallb (fun ev => negb (guard_event ev)) evs = true.

(** The guarded operation logs the effects of its own, after those
    already logged, and none of them is an event of the guard. *)
Definition logs_own_effects {T} (fn : Operation T) : Prop :=
  forall w, exists evs,
    log (snd (fn w)) = log w ++ evs /\ quiet evs.

(** The operation never resolves in time: every invocation throws, or
    is still pending when the timer fires. *)
Definition always_fails {T} (fn : Operation T) : Prop :=
  forall w, match fst (fn w) with
            | Resolves _ => False
            | _ => True
            end.

(** How often the guarded operation was invoked. *)
Definition invocations (evs : list Event) : nat :=
  List.length
    (filter (fun ev => match ev with EInvoke => true | _ => false end) evs).

(** The error of the last failed attempt of [evs], or [seen] when no
    attempt fails in [evs]. *)
Definition observed_error (seen : option JsValue) (evs : list Event)
  : option JsValue :=
  fold_left (fun acc ev => match ev with
                           | EAttemptFailed _ _ error => Some error
                           | _ => acc
                           end) evs seen.

Definition last_observed_error (evs : list Event) : option JsValue :=
  observed_error None evs.

(** What the [catch] block of [safeExecute] receives when an attempt
    settles as [s]: the value the operation rejected with, or the error
    of the timer when the timer fires first; nothing when the operation
    resolves in time. *)
Definition failure_of {T} (timeoutMs : Z) (s : Settlement T)
  : option JsValue :=
  match s with
  | Resolves _ => None
  | Rejects e => Some e
  | TimerFirst => Some (timeout_error timeoutMs)
  end.

(** The value [throw lastError || new Error(...)] throws. *)
Definition rethrown (lastError : option JsValue) : JsValue :=
  match lastError with
  | Some error => if truthy error then error else all_attempts_failed
  | None => all_attempts_failed
  end.

(** The specification's [ExhaustedRetriesError]: an error of that name. *)
Definition spec_is_ExhaustedRetriesError (v : JsValue) : Prop :=
  match v with
  | JsError name _ => name = "ExhaustedRetriesError"
  | _ => False
  end.

(** A process that has just started. *)
Definition initial_world : World :=
  mkWorld None None None 0 [] 0 (fun _ => 0%R) 0 (fun _ => None) [].

(** A process with an open session whose driver rejects every call: the
    browser is wedged. *)
Definition wedged_world : World :=
  mkWorld (Some 0%nat) (Some 1%nat) (Some "snapshot") 0 [0%nat] 2
          (fun _ => 0%R) 0
          (fun _ => Some (new_Error "Target page, context or browser has been closed"))
          [].

(** An operation that throws [new Error("boom")] on every invocation. *)
Definition always_throws : Operation unit :=
  fun w => (Rejects (new_Error "boom"), w).

(** An operation that throws on every invocation an error that tells
    how often it has been invoked: [new Error("failure 1")], then
    [new Error("failure 2")], and so on. *)
Definition throws_attempt_number : Operation unit :=
  fun w =>
    (Rejects (new_Error
                ("failure " ++ string_of_Z (Z.of_nat (invocations (log w))))),
     w).

(** An operation that never settles: the timer always fires first. *)
Definition never_settles : Operation unit :=
  fun w => (TimerFirst, w).

End Observe.

(* ===================================================================== *)
(** ** Rational partial sums for pi

  The partial sums of the series of [PI / 4 = 2 * atan (1/3) + atan (1/7)],
  computed on rationals, enclose pi tightly enough to place the double
  [Math.PI] below it. *)
(* ===================================================================== *)

Module PiSeries.






End PiSeries.

(* ===================================================================== *)
(** ** Math.PI lies just below pi *)
(* ===================================================================== *)

Section MathPI.
Import PiSeries.
Local Open Scope R_scope.












End MathPI.

(* ===================================================================== *)
(** ** Properties of the timing model *)
(* ===================================================================== *)

Section TimingModel.
Import HumanBehavior.
Local Open Scope R_scope.

(** With a first sample in (0, 1) Box-Muller is finite. *)
Lemma box_muller_regular (u1 u2 : R) :
  0 < u1 < 1 ->
  box_muller u1 u2 = Fin (sqrt (-2 * ln u1) * cos (2 * Math_PI * u2)).
Proof.
  intros [H0 H1]. unfold box_muller, Math_log.
  destruct (Rlt_dec 0 u1) as [_ | Hn]; [| contradiction].
  cbn [js_mul Math_sqrt Math_cos].
  assert (Hln : ln u1 < 0) by (rewrite <- ln_1; now apply ln_increasing).
  destruct (Rlt_dec (-2 * ln u1) 0) as [Hneg | _]; [lra | reflexivity].
Qed.

(** With a first sample of zero the logarithm is minus infinity and
    Box-Muller is an infinity with the sign of the cosine. *)
Lemma box_muller_zero_sample (u2 : R) :
  box_muller 0 u2 = inf_times true (cos (2 * Math_PI * u2)).
Proof.
  unfold box_muller, Math_log.
  destruct (Rlt_dec 0 0) as [Hlt | _]; [lra |].
  cbn [js_mul]. unfold inf_times at 1.
  destruct (Rlt_dec 0 (-2)) as [Hlt | _]; [lra |].
  destruct (Rlt_dec (-2) 0) as [_ | Hn]; [| lra].
  reflexivity.
Qed.

Lemma clamp_within (lo hi x : R) :
  lo <= hi -> lo <= Rmax lo (Rmin hi x) <= hi.
Proof.
  intros Hle. split.
  - apply Rmax_l.
  - apply Rmax_lub; [exact Hle | apply Rmin_l].
Qed.

(** For finite bounds and a first sample in (0, 1), the delay is the
    clamped rounding of the scaled deviate, a number between the
    bounds. *)
Lemma humanDelay_ms_regular (min max u1 u2 : R) :
  min <= max -> 0 < u1 < 1 ->
  exists delay,
    humanDelay_ms (Fin min) (Fin max) u1 u2 = Fin delay /\
    min <= delay <= max /\
    delay =
      Rmax min
        (Rmin max
           (IZR (Zfloor (sqrt (-2 * ln u1) * cos (2 * Math_PI * u2)
                         * ((max - min) / 4) + (min + max) / 2 + / 2)))).
Proof.
  intros Hle Hu. unfold humanDelay_ms.
  rewrite (box_muller_regular u1 u2 Hu).
  cbn [js_add js_sub js_neg js_div].
  destruct (Req_dec_T 2 0) as [H2 | _]; [lra |].
  destruct (Req_dec_T 4 0) as [H4 | _]; [lra |].
  cbn [js_mul js_add Math_round Math_min Math_max].
  eexists. split; [reflexivity |]. split.
  - apply clamp_within. exact Hle.
  - unfold Rminus. reflexivity.
Qed.

(** For finite bounds [min < max] and a first sample of zero, the
    infinite deviate is clamped to one of the two bounds: the upper one
    when the cosine is positive, the lower one when it is negative. *)
Lemma humanDelay_ms_zero_sample (min max u2 : R) :
  min < max -> cos (2 * Math_PI * u2) <> 0 ->
  humanDelay_ms (Fin min) (Fin max) 0 u2
  = if Rlt_dec 0 (cos (2 * Math_PI * u2)) then Fin max else Fin min.
Proof.
  intros Hlt Hcos. unfold humanDelay_ms.
  rewrite box_muller_zero_sample.
  cbn [js_add js_sub js_neg js_div].
  destruct (Req_dec_T 2 0) as [H2 | _]; [lra |].
  destruct (Req_dec_T 4 0) as [H4 | _]; [lra |].
  unfold inf_times at 1.
  destruct (Rlt_dec 0 (cos (2 * Math_PI * u2))) as [Hpos | Hnpos].
  - cbn [signed_inf js_mul]. unfold inf_times.
    destruct (Rlt_dec 0 ((max + - min) / 4)) as [_ | Hn]; [| lra].
    cbn [signed_inf js_add Math_round Math_min Math_max].
    f_equal. apply Rmax_right. lra.
  - destruct (Rlt_dec (cos (2 * Math_PI * u2)) 0) as [Hneg | Hnneg];
      [| lra].
    cbn [negb signed_inf js_mul]. unfold inf_times.
    destruct (Rlt_dec 0 ((max + - min) / 4)) as [_ | Hn]; [| lra].
    reflexivity.
Qed.

(** Every call the module makes has [min < max]: there the delay is
    finite and within the bounds for every sample in [[0, 1)], the zero
    sample included. *)
Lemma humanDelay_ms_within (min max u1 u2 : R) :
  min < max -> 0 <= u1 < 1 -> (u1 = 0 -> cos (2 * Math_PI * u2) <> 0) ->
  exists delay,
    humanDelay_ms (Fin min) (Fin max) u1 u2 = Fin delay /\
    min <= delay <= max.
Proof.
  intros Hlt [H0 H1] Hcos.
  destruct (Req_dec_T u1 0) as [-> | Hnz].
  - rewrite (humanDelay_ms_zero_sample min max u2 Hlt (Hcos eq_refl)).
    destruct (Rlt_dec 0 (cos (2 * Math_PI * u2)));
      eexists; (split; [reflexivity | lra]).
  - destruct (humanDelay_ms_regular min max u1 u2) as (d & Hd & Hr & _);
      [lra | lra |].
    exists d. now split.
Qed.

(** C3 fails when the first sample is zero and [min = max]:
    [Math.log(0)] is minus infinity, the deviate is plus infinity, the
    standard deviation is zero, their product is [NaN], and [NaN] passes
    through [Math.round], [Math.min] and [Math.max]: the delay handed to
    [setTimeout] is [NaN], not [min].  With [min = max = Infinity] the
    delay is [NaN] whatever the samples are. *)
Theorem humanDelay_zero_sample_yields_NaN :
  humanDelay_ms (Fin 250) (Fin 250) 0 0 = NaN /\
  (forall u1 u2, humanDelay_ms PosInf PosInf u1 u2 = NaN).
Proof.
  split.
  - unfold humanDelay_ms. rewrite box_muller_zero_sample.
    replace (2 * Math_PI * 0) with 0 by lra. rewrite cos_0.
    cbn [js_add js_sub js_neg js_div].
    destruct (Req_dec_T 2 0) as [H2 | _]; [lra |].
    destruct (Req_dec_T 4 0) as [H4 | _]; [lra |].
    unfold inf_times at 1.
    destruct (Rlt_dec 0 1) as [_ | Hn]; [| lra].
    cbn [signed_inf js_mul]. unfold inf_times.
    repeat match goal with
           | |- context [Rlt_dec ?a ?b] => destruct (Rlt_dec a b); try lra
           end.
    reflexivity.
  - intros u1 u2. unfold humanDelay_ms.
    cbn [js_add js_sub js_neg js_div].
    destruct (Rlt_dec 2 0) as [H2 | _]; [lra |].
    destruct (box_muller u1 u2); reflexivity.
Qed.

End TimingModel.

(* ===================================================================== *)
(** ** Properties of the input simulator *)
(* ===================================================================== *)

Section Arithmetic.
Local Open Scope R_scope.

(** [Math.floor(r * n) + k] for a sample in [[0, 1)] is one of
    [k, ..., k + n - 1]. *)
Lemma floor_scaled_sample (r : R) (n : Z) :
  0 <= r < 1 -> (0 < n)%Z ->
  (0 <= Math_floor (r * IZR n) <= n - 1)%Z.
Proof.
  intros [Hr0 Hr1] Hn. unfold Math_floor.
  assert (Hn' : 0 < IZR n) by now apply IZR_lt.
  destruct (Zfloor_bound (r * IZR n)) as [Hlo Hhi].
  split.
  - apply Zfloor_lub. simpl. nra.
  - assert (H : IZR (Zfloor (r * IZR n)) < IZR n) by nra.
    apply lt_IZR in H. lia.
Qed.

End Arithmetic.


Section PointerMovement.
Import HumanBehavior.
Local Open Scope R_scope.














(** C10.  When the bounding box of the element is [null],
    [humanMouseMovement] completes normally and leaves the state as it
    was: no cursor move, no delay, no random draw, no error. *)
Theorem humanMouseMovement_without_box (page : Page)
        (element : ElementHandle) (e : Env) :
  boundingBox element = None ->
  humanMouseMovement page element e = (Normal tt, e).
Proof.
  intros Hbox. unfold humanMouseMovement. rewrite Hbox. reflexivity.
Qed.

Lemma humanMouseMovement_without_box_witness :
  boundingBox (mkElement None) = None /\
  humanMouseMovement (mkPage None) (mkElement None) idle_env
  = (Normal tt, idle_env).
Proof.
  split; [reflexivity |].
  apply (humanMouseMovement_without_box (mkPage None) (mkElement None)).
  reflexivity.
Defined.

End PointerMovement.

Section TypedEntry.
Import HumanBehavior.
Local Open Scope R_scope.

Lemma avgTypingSpeed_range (r : R) :
  0 <= r < 1 -> (200 <= avgTypingSpeed r <= 499)%Z.
Proof.
  intros Hr. unfold avgTypingSpeed.
  pose proof (floor_scaled_sample r 300 Hr ltac:(lia)). lia.
Qed.

Lemma baseDelay_range (speed : Z) :
  (200 <= speed <= 499)%Z -> 120 < baseDelay speed <= 300.
Proof.
  intros [Hlo Hhi]. unfold baseDelay.
  apply IZR_le in Hlo, Hhi.
  assert (Hpos : 0 < IZR speed) by lra.
  split.
  - apply Rmult_lt_reg_r with (IZR speed); [exact Hpos |].
    unfold Rdiv. rewrite Rmult_assoc, Rinv_l by lra. lra.
  - apply Rmult_le_reg_r with (IZR speed); [exact Hpos |].
    unfold Rdiv. rewrite Rmult_assoc, Rinv_l by lra. lra.
Qed.

Lemma variation_range (r : R) : 0 <= r < 1 -> 0.75 <= variation r < 1.25.
Proof. unfold variation. lra. Qed.

Lemma factor_pause (c : N) : pause_class c = true -> factor c = 2.
Proof. intros H. unfold factor. now rewrite H. Qed.

Lemma factor_plain (c : N) : pause_class c = false -> factor c = 1.
Proof. intros H. unfold factor. now rewrite H. Qed.

(** The comma and the space are in the pause-inducing class; a letter is
    not. *)
Lemma pause_class_samples :
  pause_class 44 = true /\ pause_class 32 = true /\ pause_class 97 = false.
Proof. repeat split; reflexivity. Qed.

(** C5, as the code has it.  The factor of a pause-inducing character is
    twice that of any other character.  With independent jitter draws the
    delay of a pause-inducing character is at least 1.2 times the delay of
    a plain character before [Math.floor] is applied; after flooring it is
    strictly larger, and larger than 1.2 times the plain delay up to the
    millisecond that the floor removes. *)
Theorem typed_entry_pause_delay (rs rp rl : R) (cp cl : N) :
  0 <= rs < 1 -> 0 <= rp < 1 -> 0 <= rl < 1 ->
  pause_class cp = true -> pause_class cl = false ->
  let base := baseDelay (avgTypingSpeed rs) in
  factor cp = 2 * factor cl /\
  1.2 * (base * factor cl * variation rl)
    <= base * factor cp * variation rp /\
  1.2 * IZR (charDelay base cl rl) < IZR (charDelay base cp rp) + 1 /\
  (charDelay base cl rl < charDelay base cp rp)%Z.
Proof.
  intros Hrs Hrp Hrl Hcp Hcl base.
  pose proof (baseDelay_range _ (avgTypingSpeed_range rs Hrs)) as Hbase.
  fold base in Hbase.
  pose proof (variation_range rp Hrp) as Hvp.
  pose proof (variation_range rl Hrl) as Hvl.
  unfold charDelay, Math_floor.
  rewrite (factor_pause cp Hcp), (factor_plain cl Hcl).
  destruct (Zfloor_bound (base * 2 * variation rp)) as [Hp1 Hp2].
  destruct (Zfloor_bound (base * 1 * variation rl)) as [Hl1 Hl2].
  assert (Hgap : base * 1 * variation rl + 30 < base * 2 * variation rp)
    by nra.
  repeat split.
  - lra.
  - nra.
  - nra.
  - apply lt_IZR. lra.
Qed.

Lemma typed_entry_pause_delay_witness :
  0 <= / 3 < 1 /\ 0 <= 0 < 1 /\ 0 <= 0.9 < 1 /\
  pause_class 44 = true /\ pause_class 97 = false /\
  let base := baseDelay (avgTypingSpeed (/ 3)) in
  factor 44 = 2 * factor 97 /\
  1.2 * (base * factor 97 * variation 0.9)
    <= base * factor 44 * variation 0 /\
  1.2 * IZR (charDelay base 97 0.9) < IZR (charDelay base 44 0) + 1 /\
  (charDelay base 97 0.9 < charDelay base 44 0)%Z.
Proof.
  assert (H1 : 0 <= / 3 < 1) by lra.
  assert (H2 : 0 <= 0 < 1) by lra.
  assert (H3 : 0 <= 0.9 < 1) by lra.
  split; [exact H1 |]. split; [exact H2 |]. split; [exact H3 |].
  split; [reflexivity |]. split; [reflexivity |].
  exact (typed_entry_pause_delay (/ 3) 0 0.9 44 97 H1 H2 H3
           eq_refl eq_refl).
Defined.

Lemma sample_baseDelay : baseDelay (avgTypingSpeed (/ 3)) = 200.
Proof.
  unfold avgTypingSpeed, Math_floor.
  replace (Zfloor (/ 3 * 300)) with 100%Z
    by (symmetry; apply Zfloor_eq; simpl; lra).
  unfold baseDelay. simpl. lra.
Qed.

Lemma sample_comma_delay : charDelay 200 44 0 = 300%Z.
Proof.
  unfold charDelay, Math_floor.
  rewrite (factor_pause 44 eq_refl). unfold variation.
  apply Zfloor_eq. simpl. lra.
Qed.

Lemma sample_space_delay : charDelay 200 32 0 = 300%Z.
Proof.
  unfold charDelay, Math_floor.
  rewrite (factor_pause 32 eq_refl). unfold variation.
  apply Zfloor_eq. simpl. lra.
Qed.

Lemma sample_letter_delay : charDelay 200 97 0.9 = 240%Z.
Proof.
  unfold charDelay, Math_floor.
  rewrite (factor_plain 97 eq_refl). unfold variation.
  apply Zfloor_eq. simpl. lra.
Qed.

(** C5, as the specification words it, fails: at a typing speed of 300
    characters per minute (base delay 200 ms), a comma or a space drawn
    with the lowest jitter gets 300 ms while the letter [a] drawn with
    jitter 1.2 gets 240 ms, and 300 is below 1.5 times 240. *)
Lemma typed_entry_ratio_counterexample :
  0 <= / 3 < 1 /\ 0 <= 0 < 1 /\ 0 <= 0.9 < 1 /\
  pause_class 44 = true /\ pause_class 32 = true /\
  pause_class 97 = false /\
  let base := baseDelay (avgTypingSpeed (/ 3)) in
  ~ (1.5 * IZR (charDelay base 97 0.9) <= IZR (charDelay base 44 0)) /\
  ~ (1.5 * IZR (charDelay base 97 0.9) <= IZR (charDelay base 32 0)).
Proof.
  repeat split; try lra; cbv zeta; rewrite sample_baseDelay.
  - rewrite sample_comma_delay, sample_letter_delay. lra.
  - rewrite sample_space_delay, sample_letter_delay. lra.
Qed.

End TypedEntry.

Section Scrolling.
Import HumanBehavior.
Local Open Scope R_scope.

Lemma same_oracles_refl (e : Env) : same_oracles e e.
Proof. repeat split. Qed.

Lemma same_oracles_trans (e1 e2 e3 : Env) :
  same_oracles e1 e2 -> same_oracles e2 e3 -> same_oracles e1 e3.
Proof.
  intros (A1 & A2 & A3) (B1 & B2 & B3).
  repeat split; congruence.
Qed.

Lemma uniform_samples_kept (e e' : Env) :
  same_oracles e e' -> uniform_samples e -> uniform_samples e'.
Proof. intros (H & _) Hu n. rewrite H. apply Hu. Qed.

Lemma cosine_nonzero_kept (e e' : Env) :
  same_oracles e e' -> cosine_nonzero e -> cosine_nonzero e'.
Proof. intros (H & _) Hc n. rewrite !H. apply Hc. Qed.

Lemma driver_reliable_kept (e e' : Env) :
  same_oracles e e' -> driver_reliable e -> driver_reliable e'.
Proof. intros (_ & _ & H) Hd n. rewrite H. apply Hd. Qed.

Lemma lag_nonneg_kept (e e' : Env) :
  same_oracles e e' -> lag_nonneg e -> lag_nonneg e'.
Proof. intros (_ & H & _) Hl n. rewrite H. apply Hl. Qed.

Lemma lag_free_kept (e e' : Env) :
  same_oracles e e' -> lag_free e -> lag_free e'.
Proof. intros (_ & H & _) Hl n. rewrite H. apply Hl. Qed.

Lemma scrollCount_range (r : R) : 0 <= r < 1 -> (2 <= scrollCount r <= 4)%Z.
Proof.
  intros Hr. unfold scrollCount.
  pose proof (floor_scaled_sample r 3 Hr ltac:(lia)). lia.
Qed.

Lemma scroll_magnitude (r1 r2 vh : R) :
  0 <= r1 < 1 ->
  0.75 * Rabs vh
  <= Rabs (scrollDistance r1 vh * scrollDirection r2)
  <= 1.25 * Rabs vh.
Proof.
  intros Hr. unfold scrollDistance.
  assert (Hd : Rabs (scrollDirection r2) = 1).
  { unfold scrollDirection, Rabs.
    destruct (Rgt_dec r2 0.2); destruct (Rcase_abs _); lra. }
  rewrite !Rabs_mult, Hd, Rmult_1_r.
  rewrite (Rabs_right (r1 * 0.5 + 0.75)) by lra.
  pose proof (Rabs_pos vh). nra.
Qed.

(** One scroll event: the distance of one fresh sample, signed by the
    direction of the next one, then a delay. *)
Lemma scrollStep_run (vh : R) (e : Env) :
  driver_reliable e ->
  exists e' delay,
    scrollStep vh e = (Normal tt, e') /\
    same_oracles e e' /\
    random_used e' = (4 + random_used e)%nat /\
    trace e'
    = trace e
      ++ [EScrollBy
            (scrollDistance (random_stream e (random_used e)) vh
             * scrollDirection (random_stream e (S (random_used e))));
          ESleep delay].
Proof.
  intros Hd.
  unfold scrollStep, humanDelay, bind, Math_random, driver_call, sleep,
    effect.
  cbn [random_stream random_used clock lag driver_fault trace].
  rewrite Hd. do 2 eexists. split; [reflexivity |].
  cbn [random_stream random_used clock lag driver_fault trace].
  split; [now repeat split |]. split; [reflexivity |].
  now rewrite <- app_assoc.
Qed.

Lemma scrollSteps_run (vh : R) (n : nat) :
  forall e,
    driver_reliable e ->
    exists e' evs,
      scrollSteps n vh e = (Normal tt, e') /\
      same_oracles e e' /\
      trace e' = trace e ++ evs /\
      scroll_args evs
      = map (fun k =>
               scrollDistance (random_stream e (random_used e + 4 * k)) vh
               * scrollDirection
                   (random_stream e (S (random_used e + 4 * k))))
            (seq 0 n).
Proof.
  induction n as [| n IH]; intros e Hd.
  - exists e, []. cbn. rewrite app_nil_r.
    split; [reflexivity |]. split; [repeat split |]. split; reflexivity.
  - destruct (scrollStep_run vh e Hd)
      as (e1 & delay & Hrun1 & Hso1 & Hused1 & Htr1).
    destruct (IH e1 (driver_reliable_kept e e1 Hso1 Hd))
      as (e2 & evs & Hrun2 & Hso2 & Htr2 & Hargs).
    exists e2. eexists.
    cbn [scrollSteps]. unfold bind at 1. rewrite Hrun1, Hrun2.
    split; [reflexivity |].
    split; [eapply same_oracles_trans; eassumption |].
    split; [rewrite Htr2, Htr1, <- app_assoc; reflexivity |].
    cbn [app scroll_args flat_map]. fold (scroll_args evs).
    rewrite Hargs. cbn [seq map].
    replace (random_used e + 4 * 0)%nat with (random_used e) by lia.
    f_equal.
    rewrite <- seq_shift, map_map.
    apply map_ext. intros k.
    destruct Hso1 as (-> & _ & _). rewrite Hused1.
    replace (4 + random_used e + 4 * k)%nat
      with (random_used e + 4 * S k)%nat by lia.
    reflexivity.
Qed.

(** C8.  When the driver does not reject and the samples are uniform on
    [[0, 1)], a scroll sequence completes.  Its first sample fixes the
    number of [window.scrollBy] events, [floor(sample * 3) + 2], which is
    between 2 and 4.  Event [k] is made from two fresh samples: its
    distance is [(sample * 0.5 + 0.75) * viewportHeight], between 0.75 and
    1.25 viewport heights in magnitude, and it is passed to [scrollBy] as
    it is (downward) when the second sample is above 0.2, the upper 0.8 of
    the unit interval, and negated (upward) otherwise. *)
Theorem humanScroll_events (page : Page) (e : Env) :
  uniform_samples e -> driver_reliable e ->
  let sample k := random_stream e (random_used e + k) in
  let viewportHeight := scrollViewportHeight page in
  let count := Z.to_nat (Zfloor (sample 0%nat * 3) + 2) in
  let distance k := (sample (1 + 4 * k)%nat * 0.5 + 0.75) * viewportHeight in
  let scrolled k :=
    distance k * (if Rgt_dec (sample (2 + 4 * k)%nat) 0.2 then 1 else -1) in
  (2 <= count <= 4)%nat /\
  (exists e' evs,
      humanScroll page e = (Normal tt, e') /\
      trace e' = trace e ++ evs /\
      scroll_args evs = map scrolled (seq 0 count)) /\
  (forall k,
      0.75 * Rabs viewportHeight
      <= Rabs (scrolled k)
      <= 1.25 * Rabs viewportHeight) /\
  (forall k, 1 - 0.8 < sample (2 + 4 * k)%nat -> scrolled k = distance k) /\
  (forall k, sample (2 + 4 * k)%nat <= 1 - 0.8 ->
             scrolled k = - distance k).
Proof.
  intros Hu Hd sample viewportHeight count distance scrolled.
  split.
  { subst count.
    pose proof (scrollCount_range (sample 0%nat) (Hu _)) as Hc.
    unfold scrollCount, Math_floor in Hc. lia. }
  split.
  { pose (e1 := mkEnv (random_stream e) (S (random_used e))
                      (clock e + 0 + lag e (List.length (trace e))) (lag e)
                      (driver_fault e) (trace e ++ [EScrollHeight])).
    destruct (scrollSteps_run viewportHeight count e1 Hd)
      as (e2 & evs & Hrun & _ & Htr & Hargs).
    exists e2, (EScrollHeight :: evs).
    split.
    { unfold humanScroll, bind, driver_call, effect, Math_random.
      cbn [random_stream random_used clock lag driver_fault trace].
      rewrite Hd. subst count sample. unfold scrollCount, Math_floor.
      cbv beta in Hrun.
      replace (random_used e + 0)%nat with (random_used e) in Hrun by lia.
      exact Hrun. }
    split.
    { rewrite Htr. subst e1. cbn [trace]. now rewrite <- app_assoc. }
    change (scroll_args (EScrollHeight :: evs)) with (scroll_args evs).
    rewrite Hargs. apply map_ext. intros k.
    subst e1 scrolled distance sample.
    cbn [random_stream random_used]. unfold scrollDistance, scrollDirection.
    replace (S (random_used e) + 4 * k)%nat
      with (random_used e + (1 + 4 * k))%nat by lia.
    replace (S (random_used e + (1 + 4 * k)))
      with (random_used e + (2 + 4 * k))%nat by lia.
    reflexivity. }
  split.
  { intros k.
    apply (scroll_magnitude (sample (1 + 4 * k)%nat)
             (sample (2 + 4 * k)%nat) viewportHeight). apply Hu. }
  split.
  - intros k Hk. unfold scrolled.
    destruct (Rgt_dec (sample (2 + 4 * k)%nat) 0.2); lra.
  - intros k Hk. unfold scrolled.
    destruct (Rgt_dec (sample (2 + 4 * k)%nat) 0.2); lra.
Qed.

Lemma humanScroll_events_witness :
  uniform_samples idle_env /\ driver_reliable idle_env /\
  0 <= 1 - 0.8 /\
  let viewportHeight := scrollViewportHeight (mkPage None) in
  let count := Z.to_nat (Zfloor (0 * 3) + 2) in
  let distance := (0 * 0.5 + 0.75) * viewportHeight in
  (2 <= count <= 4)%nat /\
  (exists e' evs,
      humanScroll (mkPage None) idle_env = (Normal tt, e') /\
      trace e' = trace idle_env ++ evs /\
      scroll_args evs = map (fun _ => - distance) (seq 0 count)) /\
  0.75 * Rabs viewportHeight <= Rabs (- distance)
  <= 1.25 * Rabs viewportHeight.
Proof.
  assert (Hu : uniform_samples idle_env) by (intros n; cbn; lra).
  assert (Hd : driver_reliable idle_env) by (intros n; reflexivity).
  assert (Hup : 0 <= 1 - 0.8) by lra.
  split; [exact Hu |]. split; [exact Hd |]. split; [exact Hup |].
  pose proof (humanScroll_events (mkPage None) idle_env Hu Hd) as H.
  cbv zeta in H. cbn [idle_env random_stream random_used] in H.
  cbv zeta.
  destruct H as (Hcount & (e' & evs & Hrun & Htr & Hargs) & Hmag & _ & Hdown).
  split; [exact Hcount |].
  split.
  { exists e', evs. split; [exact Hrun |]. split; [exact Htr |].
    rewrite Hargs. apply map_ext. intros k. apply (Hdown k). exact Hup. }
  rewrite <- (Hdown 0%nat Hup). apply (Hmag 0%nat).
Defined.

End Scrolling.

Section IdleScanning.
Import HumanBehavior.
Local Open Scope R_scope.

Lemma mouse_moves_app (a b : list Event) :
  mouse_moves (a ++ b) = (mouse_moves a + mouse_moves b)%nat.
Proof. unfold mouse_moves. now rewrite filter_app, length_app. Qed.

(** One iteration of the loop.  It issues one cursor move.  When the
    move is rejected the iteration throws what the driver rejected with;
    otherwise it sleeps for a delay between 50 and 130 ms, so the clock
    advances by at least 50 ms, and by less than 130 ms when no effect
    lags. *)
Lemma scanStep_run (w h : R) (e : Env) :
  uniform_samples e -> cosine_nonzero e -> lag_nonneg e ->
  exists r e' evs,
    scanStep w h e = (r, e') /\
    same_oracles e e' /\
    trace e' = trace e ++ evs /\
    mouse_moves evs = 1%nat /\
    Forall scan_event_ok evs /\
    match r with
    | Normal _ =>
        clock e + 50 <= clock e' /\
        (lag_free e -> clock e' <= clock e + 130)
    | Throw x => exists n, driver_fault e n = Some x
    end /\
    (driver_reliable e -> r = Normal tt).
Proof.
  intros Hu Hc Hl.
  unfold scanStep, humanDelay, bind, Math_random, driver_call, sleep,
    effect.
  cbn [random_stream random_used clock lag driver_fault trace].
  set (rs := random_stream e (S (S (random_used e)))).
  assert (Hrs : 0 <= rs < 1) by apply Hu.
  pose proof (Hl (List.length (trace e))) as Hl1.
  destruct (driver_fault e (List.length (trace e))) as [x |] eqn:Hfault.
  - do 3 eexists. split; [reflexivity |].
    cbn [random_stream random_used clock lag driver_fault trace].
    split; [now repeat split |]. split; [reflexivity |].
    split; [reflexivity |].
    split; [apply Forall_cons; [exact I | apply Forall_nil] |].
    split; [eexists; exact Hfault |].
    intros Hd. rewrite Hd in Hfault. discriminate.
  - cbn [random_stream random_used clock lag driver_fault trace].
    destruct (humanDelay_ms_within (rs * 50 + 50) (rs * 50 + 50 + 30)
                (random_stream e (S (S (S (random_used e)))))
                (random_stream e (S (S (S (S (random_used e)))))))
      as (d & Hd & Hrange); [lra | apply Hu | apply Hc |].
    rewrite Hd. cbn [timer_ms].
    rewrite (Rmax_left d 0) by lra.
    do 3 eexists. split; [reflexivity |].
    cbn [random_stream random_used clock lag driver_fault trace].
    split; [now repeat split |].
    split; [rewrite <- app_assoc; reflexivity |].
    split; [reflexivity |].
    split.
    { cbn [app]. apply Forall_cons; [exact I |].
      apply Forall_cons; [cbn; lra | apply Forall_nil]. }
    split; [| reflexivity].
    match goal with
    | |- context [_ + d + lag e ?m] => pose proof (Hl m) as Hl2
    end.
    split; [lra |].
    intros Hfree. rewrite !Hfree. lra.
Qed.

(** The loop, from a state in which at most [50 * k] ms of the duration
    remain. *)
Lemma scanLoop_terminates (start duration w h : R) (k : nat) :
  forall (e : Env) (fuel : nat),
    uniform_samples e -> cosine_nonzero e -> lag_nonneg e ->
    duration - (clock e - start) <= 50 * INR k ->
    (k < fuel)%nat ->
    exists r e' evs,
      scanLoop fuel start duration w h e = Some (r, e') /\
      trace e' = trace e ++ evs /\
      (mouse_moves evs <= k)%nat /\
      Forall scan_event_ok evs /\
      match r with
      | Normal _ => duration <= clock e' - start
      | Throw x => exists n, driver_fault e n = Some x
      end /\
      (driver_reliable e -> r = Normal tt) /\
      (clock e - start < duration -> (1 <= mouse_moves evs)%nat) /\
      (lag_free e -> r = Normal tt ->
       clock e' - clock e <= 130 * INR (mouse_moves evs)).
Proof.
  induction k as [| k IH]; intros e fuel Hu Hc Hl Hrem Hfuel.
  - destruct fuel as [| fuel]; [lia |].
    cbn [scanLoop]. cbn [INR] in Hrem.
    destruct (Rlt_dec (clock e - start) duration) as [Hlt | Hge]; [lra |].
    exists (Normal tt), e, []. rewrite app_nil_r.
    split; [reflexivity |]. split; [reflexivity |].
    split; [cbn; lia |]. split; [apply Forall_nil |].
    split; [lra |]. split; [reflexivity |].
    split; [intros Hlt; lra |]. intros _ _. cbn. lra.
  - destruct fuel as [| fuel]; [lia |].
    cbn [scanLoop].
    destruct (Rlt_dec (clock e - start) duration) as [Hlt | Hge].
    + destruct (scanStep_run w h e Hu Hc Hl)
        as (r & e1 & evs1 & Hrun & Hso & Htr & Hmv & Hok & Hres & Hrel).
      rewrite Hrun. destruct r as [[] | x].
      * destruct Hres as [Hadv Hfast].
        rewrite S_INR in Hrem.
        destruct (IH e1 fuel (uniform_samples_kept e e1 Hso Hu)
                     (cosine_nonzero_kept e e1 Hso Hc)
                     (lag_nonneg_kept e e1 Hso Hl) ltac:(lra) ltac:(lia))
          as (r2 & e2 & evs2 & Hrun2 & Htr2 & Hmv2 & Hok2 & Hexit
              & Hrel2 & _ & Hfast2).
        exists r2, e2, (evs1 ++ evs2).
        split; [exact Hrun2 |].
        split; [rewrite Htr2, Htr; now rewrite <- app_assoc |].
        split; [rewrite mouse_moves_app; lia |].
        split; [now apply Forall_app |].
        split.
        { destruct r2 as [[] | x2]; [exact Hexit |].
          destruct Hexit as (n & Hn). exists n.
          destruct Hso as (_ & _ & Hdf). now rewrite <- Hdf. }
        split.
        { intros Hd. apply Hrel2. exact (driver_reliable_kept e e1 Hso Hd). }
        split; [intros _; rewrite mouse_moves_app; lia |].
        intros Hfree Hnormal.
        specialize (Hfast Hfree).
        specialize (Hfast2 (lag_free_kept e e1 Hso Hfree) Hnormal).
        rewrite mouse_moves_app, Hmv, plus_INR. cbn [INR]. lra.
      * exists (Throw x), e1, evs1.
        split; [reflexivity |]. split; [exact Htr |].
        split; [lia |]. split; [exact Hok |].
        split; [exact Hres |]. split; [exact Hrel |].
        split; [intros _; lia |]. intros _ Hcontra. discriminate Hcontra.
    + exists (Normal tt), e, []. rewrite app_nil_r.
      split; [reflexivity |]. split; [reflexivity |].
      split; [cbn; lia |]. split; [apply Forall_nil |].
      split; [lra |]. split; [reflexivity |].
      split; [intros Hlt; lra |]. intros _ _. cbn. lra.
Qed.

Lemma scan_bound_covers (duration : R) :
  0 <= duration -> duration <= 50 * INR (scan_bound duration).
Proof.
  intros Hd. unfold scan_bound.
  destruct (Zfloor_ceil_bound (duration / 50)) as [_ Hc].
  assert (Hz : (0 <= Zceil (duration / 50))%Z).
  { apply le_IZR. apply Rle_trans with (duration / 50); [| exact Hc].
    unfold Rdiv. nra. }
  rewrite INR_IZR_INZ, Z2Nat.id by exact Hz.
  lra.
Qed.

(** C9.  For every non-negative duration, when the samples are uniform on
    [[0, 1)] and no effect takes less time than its nominal duration (so an
    iteration advances the clock by at least its delay), idle scanning
    terminates: with any fuel above [ceil(duration / 50)] the loop exits.
    Each iteration issues one cursor move and then sleeps for at least
    50 ms; there are at most [ceil(duration / 50)] of them, and at least
    one when the duration is positive.  The loop throws only what the
    driver rejected a move with, so with a reliable driver it completes
    normally, and then the elapsed time has reached the duration; when in
    addition no effect lags, an iteration takes less than 130 ms, so the
    number of iterations is at least [duration / 130]: it follows the
    clock, it is not a fixed count. *)
Theorem randomMouseMovements_terminates (page : Page) (duration : R)
        (e : Env) (fuel : nat) :
  0 <= duration ->
  uniform_samples e -> cosine_nonzero e -> lag_nonneg e ->
  (scan_bound duration < fuel)%nat ->
  exists r e' evs,
    randomMouseMovements fuel page duration e = Some (r, e') /\
    trace e' = trace e ++ evs /\
    (mouse_moves evs <= scan_bound duration)%nat /\
    Forall scan_event_ok evs /\
    match r with
    | Normal _ => duration <= clock e' - clock e
    | Throw x => exists n, driver_fault e n = Some x
    end /\
    (driver_reliable e -> r = Normal tt) /\
    (0 < duration -> (1 <= mouse_moves evs)%nat) /\
    (driver_reliable e -> lag_free e ->
     duration <= 130 * INR (mouse_moves evs)).
Proof.
  intros Hd Hu Hc Hl Hfuel. unfold randomMouseMovements.
  pose proof (scan_bound_covers duration Hd) as Hcover.
  destruct (scanLoop_terminates (clock e) duration
              (vp_width (viewport_of page)) (vp_height (viewport_of page))
              (scan_bound duration) e fuel Hu Hc Hl ltac:(lra) Hfuel)
    as (r & e' & evs & Hrun & Htr & Hmv & Hok & Hexit & Hrel & Hsome
        & Hfast).
  exists r, e', evs.
  split; [exact Hrun |]. split; [exact Htr |]. split; [exact Hmv |].
  split; [exact Hok |]. split; [exact Hexit |]. split; [exact Hrel |].
  split; [intros Hpos; apply Hsome; lra |].
  intros Hrel' Hfree.
  specialize (Hrel Hrel'). subst r.
  specialize (Hfast Hfree eq_refl). lra.
Qed.

Lemma idle_env_cosine : cosine_nonzero idle_env.
Proof.
  intros n _. cbn. replace (2 * Math_PI * 0) with 0 by lra.
  rewrite cos_0. lra.
Qed.

Lemma randomMouseMovements_terminates_witness :
  0 <= 100 /\ uniform_samples idle_env /\ cosine_nonzero idle_env /\
  lag_nonneg idle_env /\ (scan_bound 100 < 3)%nat /\
  driver_reliable idle_env /\ lag_free idle_env /\ 0 < 100 /\
  exists e' evs,
    randomMouseMovements 3 (mkPage None) 100 idle_env
    = Some (Normal tt, e') /\
    trace e' = trace idle_env ++ evs /\
    (1 <= mouse_moves evs <= scan_bound 100)%nat /\
    Forall scan_event_ok evs /\
    100 <= clock e' - clock idle_env /\
    100 <= 130 * INR (mouse_moves evs).
Proof.
  assert (H0 : 0 <= 100) by lra.
  assert (Hpos : 0 < 100) by lra.
  assert (Hu : uniform_samples idle_env) by (intros n; cbn; lra).
  assert (Hl : lag_nonneg idle_env) by (intros n; cbn; lra).
  assert (Hf : lag_free idle_env) by (intros n; reflexivity).
  assert (Hd : driver_reliable idle_env) by (intros n; reflexivity).
  assert (Hb : (scan_bound 100 < 3)%nat).
  { unfold scan_bound. rewrite (Zceil_eq 2 (100 / 50)) by lra. cbn. lia. }
  split; [exact H0 |]. split; [exact Hu |].
  split; [exact idle_env_cosine |]. split; [exact Hl |].
  split; [exact Hb |]. split; [exact Hd |]. split; [exact Hf |].
  split; [exact Hpos |].
  destruct (randomMouseMovements_terminates (mkPage None) 100 idle_env 3
              H0 Hu idle_env_cosine Hl Hb)
    as (r & e' & evs & Hrun & Htr & Hmv & Hok & Hexit & Hrel & Hsome
        & Hfast).
  specialize (Hrel Hd). subst r.
  exists e', evs.
  split; [exact Hrun |]. split; [exact Htr |].
  split; [split; [exact (Hsome Hpos) | exact Hmv] |].
  split; [exact Hok |]. split; [exact Hexit | exact (Hfast Hd Hf)].
Defined.

End IdleScanning.

(* ===================================================================== *)
(** ** Properties of the profile catalog *)
(* ===================================================================== *)

Section ProfileCatalog.
Import BrowserProfiles.
Local Open Scope Z_scope.

Lemma catalogSize_is_5 : catalogSize = 5.
Proof. reflexivity. Qed.

(** On the indices the rotation counter produces, and on every other
    non-negative integer, the code selects [catalog[i mod 5]] and is
    periodic in the catalog size. *)
Lemma getProfileByIndex_nonneg (i : Z) :
  0 <= i ->
  getProfileByIndex i = spec_getProfileByIndex i /\
  getProfileByIndex (i + catalogSize) = getProfileByIndex i.
Proof.
  intros Hi.
  assert (Hrem : forall j, 0 <= j ->
            getProfileByIndex j = spec_getProfileByIndex j).
  { intros j Hj. unfold getProfileByIndex, spec_getProfileByIndex, array_get.
    rewrite Z.rem_mod_nonneg by (rewrite ?catalogSize_is_5; lia).
    pose proof (Z.mod_pos_bound j catalogSize ltac:(reflexivity)) as Hb.
    destruct (Z.ltb_spec (j mod catalogSize) 0); [lia | reflexivity]. }
  split; [now apply Hrem |].
  rewrite !Hrem by (rewrite ?catalogSize_is_5; lia).
  unfold spec_getProfileByIndex.
  replace (i + catalogSize) with (i + 1 * catalogSize) by lia.
  now rewrite Z.mod_add by (rewrite catalogSize_is_5; lia).
Qed.

(** C6 fails on a negative integer.  [getProfileByIndex(-1)] computes
    [-1 % 5 = -1] and reads [browserProfiles[-1]], which is [undefined],
    where [catalog[-1 mod 5]] is the last profile; and the answers at [-1]
    and at [-1 + 5] differ, so the function is not periodic there. *)
Theorem getProfileByIndex_negative_index :
  getProfileByIndex (-1) = None /\
  spec_getProfileByIndex (-1) = Some androidChrome /\
  getProfileByIndex (-1 + catalogSize) = Some androidChrome /\
  getProfileByIndex (-1) <> getProfileByIndex (-1 + catalogSize).
Proof.
  repeat split; try reflexivity. discriminate.
Qed.

End ProfileCatalog.

(* ===================================================================== *)
(** ** Symbolic execution of index.ts *)
(* ===================================================================== *)

Ltac unfold_server :=
unfold Server.getOrCreateBrowserAndPage, Server.select_profile,
  Server.advance_profile_index, Server.close_existing_session,
  Server.cleanup_after_timeout, Server.cleanup_on_unhandled_rejection,
  Server.detached_close, Server.browser_close, Server.chromium_launch,
  Server.browser_newPage, Server.driver_call, Server.console,
  Server.sleep, Server.effect, try_catch, bind, ret, throw, Server.get,
  Server.set_globalBrowser, Server.set_globalPage,
  Server.set_lastSnapshot, Server.set_currentProfileIndex,
  Server.set_open_browsers, Server.fresh_handle, Server.Math_random.

Ltac simpl_world :=
cbn [Server.globalBrowser Server.globalPage Server.lastSnapshot
     Server.currentProfileIndex Server.open_browsers Server.next_handle
     Server.random_stream Server.random_used Server.driver_fault
     Server.log negb fst snd].

Ltac split_fault :=
match goal with
| |- context [match Server.driver_fault ?w ?n with _ => _ end] =>
    let F := fresh "Hfault" in
    destruct (Server.driver_fault w n) eqn:F
end.

(* ===================================================================== *)
(** ** Properties of the session manager *)
(* ===================================================================== *)

Section SessionManager.
Import BrowserProfiles Server Observe.
Local Open Scope async_scope.

Lemma remove_only_open (b : Browser) (l : list Browser) :
  l = [] \/ (exists b', l = [b'] /\ Some b = Some b') ->
  remove Nat.eq_dec b l = [].
Proof.
  intros [-> | (b' & -> & Heq)]; [reflexivity |].
  injection Heq as <-. cbn. now destruct (Nat.eq_dec b b).
Qed.

Lemma at_most_one_open (w : World) :
  session_invariant w -> (List.length (open_browsers w) <= 1)%nat.
Proof.
  intros ([-> | (b & -> & _)] & _); cbn; lia.
Qed.

(** An acquisition keeps the session invariant, however it ends. *)
Lemma acquire_keeps_invariant (headless useRandomProfile : bool)
      (w : World) :
  session_invariant w ->
  session_invariant (snd (getOrCreateBrowserAndPage headless
                                                    useRandomProfile w)).
Proof.
  intros (Hopen & Hpair & Hb & Hp).
  unfold_server.
  destruct useRandomProfile; simpl_world;
    match goal with
    | |- context [getRandomProfile ?r] =>
        destruct (getRandomProfile r) as [profile |]
    | |- context [getProfileByIndex ?i] =>
        destruct (getProfileByIndex i) as [profile |]
    end;
    destruct (globalBrowser w) as [b0 |] eqn:Hgb; simpl_world;
    repeat (split_fault; simpl_world);
    try rewrite (remove_only_open b0 (open_browsers w) Hopen);
    try (assert (Hnil : open_browsers w = [])
          by (destruct Hopen as [Hnil | (b' & _ & Hcontra)];
              [exact Hnil | discriminate Hcontra]);
         rewrite Hnil);
    unfold session_invariant; simpl_world;
    repeat split; intros;
    try discriminate; try congruence; try lia;
    try (right; eexists; split; reflexivity);
    try (left; reflexivity);
    try (injection H as <-; lia);
    try (apply Hp in H; lia);
    try (specialize (Hb _ eq_refl); lia);
    auto.
Qed.

(** What an acquisition that returns has done, from any state: the two
    handles are new driver objects and are now the global handles, the
    returned browser has been added to the open ones after the existing
    session was closed, and the log shows that close (when there was a
    session) just before the launch. *)
Lemma acquire_returns (headless useRandomProfile : bool) (w : World)
      (b : Browser) (p : Page) :
  let run := getOrCreateBrowserAndPage headless useRandomProfile w in
  fst run = Normal (b, p) ->
  globalBrowser (snd run) = Some b /\
  globalPage (snd run) = Some p /\
  (next_handle w <= b < next_handle (snd run))%nat /\
  (next_handle w <= p < next_handle (snd run))%nat /\
  open_browsers (snd run) = b :: open_after_close w /\
  exists userAgent locale rest,
    log (snd run)
    = log w
      ++ match globalBrowser w with
         | Some previous => [EClose previous]
         | None => []
         end
      ++ ELaunch headless userAgent locale :: rest.
Proof.
  cbv zeta. unfold open_after_close. unfold_server.
  destruct useRandomProfile; simpl_world;
    match goal with
    | |- context [getRandomProfile ?r] =>
        destruct (getRandomProfile r) as [profile |]
    | |- context [getProfileByIndex ?i] =>
        destruct (getProfileByIndex i) as [profile |]
    end;
    destruct (globalBrowser w) as [b0 |] eqn:Hgb; simpl_world;
    repeat (split_fault; simpl_world);
    intros Hret; try discriminate Hret;
    injection Hret as <- <-;
    repeat split; try lia;
    do 3 eexists; rewrite <- ?app_assoc; cbn [app]; reflexivity.
Qed.

(** C4.  When two consecutive acquisitions both return, the two browser
    handles and the two page handles are distinct; the second call closes
    the browser of the first call (the log has that close just before the
    launch of the second browser), so the first browser, open after the
    first call, is no longer open when the second call returns.  And from
    a state that satisfies the session invariant, at most one browser is
    open after each call: the one just returned. *)
Theorem acquire_twice_closes_first
        (headless1 random1 headless2 random2 : bool) (w : World)
        (b1 b2 : Browser) (p1 p2 : Page) :
  let run1 := getOrCreateBrowserAndPage headless1 random1 w in
  let run2 := getOrCreateBrowserAndPage headless2 random2 (snd run1) in
  fst run1 = Normal (b1, p1) ->
  fst run2 = Normal (b2, p2) ->
  b1 <> b2 /\ p1 <> p2 /\
  In b1 (open_browsers (snd run1)) /\
  ~ In b1 (open_browsers (snd run2)) /\
  In b2 (open_browsers (snd run2)) /\
  (exists userAgent locale rest,
      log (snd run2)
      = log (snd run1)
        ++ EClose b1 :: ELaunch headless2 userAgent locale :: rest) /\
  (session_invariant w ->
   open_browsers (snd run1) = [b1] /\ open_browsers (snd run2) = [b2]).
Proof.
  intros run1 run2 H1 H2.
  destruct (acquire_returns headless1 random1 w b1 p1 H1)
    as (Hgb1 & Hgp1 & Hb1 & Hp1 & Hopen1 & _).
  fold run1 in Hgb1, Hgp1, Hb1, Hp1, Hopen1.
  destruct (acquire_returns headless2 random2 (snd run1) b2 p2 H2)
    as (Hgb2 & Hgp2 & Hb2 & Hp2 & Hopen2 & ua & loc & rest & Hlog).
  fold run2 in Hgb2, Hgp2, Hb2, Hp2, Hopen2, Hlog.
  unfold open_after_close in Hopen2. rewrite Hgb1 in Hopen2, Hlog.
  split; [lia |]. split; [lia |].
  split; [rewrite Hopen1; now left |].
  split.
  { rewrite Hopen2. intros [Heq | Hin]; [lia |].
    now apply remove_In in Hin. }
  split; [rewrite Hopen2; now left |].
  split; [exists ua, loc, rest; exact Hlog |].
  intros Hinv.
  pose proof (acquire_keeps_invariant headless1 random1 w Hinv) as Hinv1.
  fold run1 in Hinv1.
  pose proof (acquire_keeps_invariant headless2 random2 (snd run1) Hinv1)
    as Hinv2.
  fold run2 in Hinv2.
  destruct Hinv1 as ([Hnil1 | (x1 & Hone1 & _)] & _);
    [rewrite Hopen1 in Hnil1; discriminate |].
  destruct Hinv2 as ([Hnil2 | (x2 & Hone2 & _)] & _);
    [rewrite Hopen2 in Hnil2; discriminate |].
  rewrite Hone1, Hone2. rewrite Hopen1 in Hone1. rewrite Hopen2 in Hone2.
  injection Hone1 as <- _. injection Hone2 as <- _.
  split; reflexivity.
Qed.

Lemma initial_world_invariant : session_invariant initial_world.
Proof.
  unfold session_invariant. cbn. repeat split; auto; discriminate.
Qed.

Lemma acquire_twice_closes_first_witness :
  let run1 := getOrCreateBrowserAndPage true false initial_world in
  let run2 := getOrCreateBrowserAndPage true false (snd run1) in
  fst run1 = Normal (0%nat, 1%nat) /\
  fst run2 = Normal (2%nat, 3%nat) /\
  session_invariant initial_world /\
  0%nat <> 2%nat /\ 1%nat <> 3%nat /\
  In 0%nat (open_browsers (snd run1)) /\
  ~ In 0%nat (open_browsers (snd run2)) /\
  In 2%nat (open_browsers (snd run2)) /\
  (exists userAgent locale rest,
      log (snd run2)
      = log (snd run1)
        ++ EClose 0%nat :: ELaunch true userAgent locale :: rest) /\
  open_browsers (snd run1) = [0%nat] /\
  open_browsers (snd run2) = [2%nat].
Proof.
  cbv zeta.
  pose proof (acquire_twice_closes_first true false true false
                initial_world 0%nat 2%nat 1%nat 3%nat
                eq_refl eq_refl) as H.
  cbv zeta in H.
  destruct H as (Hb & Hp & Hin1 & Hout & Hin2 & Hlog & Hone).
  destruct (Hone initial_world_invariant) as [Hone1 Hone2].
  split; [reflexivity |]. split; [reflexivity |].
  split; [exact initial_world_invariant |].
  split; [exact Hb |]. split; [exact Hp |].
  split; [exact Hin1 |]. split; [exact Hout |]. split; [exact Hin2 |].
  split; [exact Hlog |]. split; [exact Hone1 | exact Hone2].
Defined.

End SessionManager.

(* ===================================================================== *)
(** ** Properties of the execution guard *)
(* ===================================================================== *)

Section ExecutionGuard.
Import BrowserProfiles Server Observe.
Local Open Scope async_scope.

Lemma quiet_app (a b : list Event) : quiet a -> quiet b -> quiet (a ++ b).
Proof.
  unfold quiet. intros Ha Hb. rewrite forallb_app, Ha, Hb. reflexivity.
Qed.

Lemma quiet_invocations (evs : list Event) : quiet evs -> invocations evs = 0%nat.
Proof.
  unfold quiet, invocations. induction evs as [| ev evs IH]; [reflexivity |].
  cbn. destruct ev; cbn; try discriminate; intros H; auto.
Qed.

Lemma quiet_observed (seen : option JsValue) (evs : list Event) :
  quiet evs -> observed_error seen evs = seen.
Proof.
  unfold quiet, observed_error. revert seen.
  induction evs as [| ev evs IH]; intros seen; [reflexivity |].
  cbn. destruct ev; cbn; try discriminate; intros H; auto.
Qed.

Lemma invocations_app (a b : list Event) :
  invocations (a ++ b) = (invocations a + invocations b)%nat.
Proof. unfold invocations. now rewrite filter_app, length_app. Qed.

Lemma observed_app (seen : option JsValue) (a b : list Event) :
  observed_error seen (a ++ b) = observed_error (observed_error seen a) b.
Proof. unfold observed_error. apply fold_left_app. Qed.

(** The cleanup never throws, and logs nothing of the guard. *)
Lemma cleanup_after_timeout_quiet (w : World) :
  exists w' evs,
    cleanup_after_timeout w = (Normal tt, w') /\
    log w' = log w ++ evs /\ quiet evs.
Proof.
  unfold_server. simpl_world.
  destruct (globalBrowser w) as [b |]; simpl_world;
    repeat (split_fault; simpl_world);
    do 2 eexists; (split; [reflexivity |]); simpl_world;
    rewrite <- ?app_assoc; cbn [app]; split; reflexivity.
Qed.

(** One failing attempt: the operation is invoked once, in the state
    [w0] that follows the record of the invocation, and what the [catch]
    block receives is what that invocation failed with. *)
Lemma race_fails {T} (fn : Operation T) (timeoutMs : Z) (w : World) :
  always_fails fn -> logs_own_effects fn ->
  exists w0 error w' evs,
    log w0 = log w ++ [EInvoke] /\
    failure_of timeoutMs (fst (fn w0)) = Some error /\
    race fn timeoutMs w = (Throw error, w') /\
    log w' = log w0 ++ evs /\ quiet evs.
Proof.
  intros Hfail Hlog. unfold race, effect, bind. simpl_world.
  set (w0 := mkWorld _ _ _ _ _ _ _ _ _ _).
  specialize (Hfail w0). destruct (Hlog w0) as (evs & Hevs & Hq).
  assert (Hl0 : log w0 = log w ++ [EInvoke]) by reflexivity.
  destruct (fn w0) as [[v | e |] w1] eqn:Hfn; cbn [fst snd] in *;
    [contradiction | |].
  - exists w0, e, w1, evs. rewrite Hfn. now repeat split.
  - exists w0, (timeout_error timeoutMs), w1, evs. rewrite Hfn.
    now repeat split.
Qed.

(** What follows a failed attempt, up to the next attempt [next]: the
    warning that carries the error, the cleanup when the error is a
    timeout, and the back-off when attempts remain. *)
Lemma after_failure_run (attempt retries : Z) (error : JsValue) (w : World) :
  exists w' evs,
    (forall (T : Type) (next : Async T),
        (effect (EAttemptFailed (attempt + 1) retries error) false ;;
         (if is_timeout_error error then cleanup_after_timeout
          else ret tt) ;;
         (if (attempt <? retries - 1)%Z
          then console ;; sleep (1000 * (attempt + 1))
          else ret tt) ;;
         next) w = next w') /\
    log w' = log w ++ EAttemptFailed (attempt + 1) retries error :: evs /\
    quiet evs.
Proof.
  unfold bind at 1. unfold effect at 1. simpl_world.
  set (w0 := mkWorld _ _ _ _ _ _ _ _ _ _).
  assert (Hstep : forall w1 evs1,
             log w1 = log w0 ++ evs1 -> quiet evs1 ->
             exists w' evs,
               (forall (T : Type) (next : Async T),
                   ((if (attempt <? retries - 1)%Z
                     then console ;; sleep (1000 * (attempt + 1))
                     else ret tt) ;; next) w1 = next w') /\
               log w' = log w ++ EAttemptFailed (attempt + 1) retries error
                              :: evs /\
               quiet evs).
  { intros w1 evs1 Hlog1 Hq1.
    destruct (attempt <? retries - 1)%Z.
    - unfold console, sleep, effect, bind. simpl_world.
      do 2 eexists. split; [intros T next; reflexivity |]. simpl_world.
      rewrite Hlog1. subst w0. simpl_world.
      rewrite <- !app_assoc. cbn [app]. split; [reflexivity |].
      apply quiet_app; [exact Hq1 | reflexivity].
    - exists w1, evs1. split; [intros T next; reflexivity |].
      rewrite Hlog1. subst w0. simpl_world.
      rewrite <- !app_assoc. cbn [app]. split; [reflexivity | exact Hq1]. }
  destruct (is_timeout_error error).
  - destruct (cleanup_after_timeout_quiet w0) as (w1 & evs1 & Hrun & Hl & Hq).
    destruct (Hstep w1 evs1 Hl Hq) as (w' & evs & Hnext & Hlog & Hquiet).
    exists w', evs. split; [| now split].
    intros T next. unfold bind at 1. rewrite Hrun. apply Hnext.
  - destruct (Hstep w0 [] ltac:(now rewrite app_nil_r) eq_refl)
      as (w' & evs & Hnext & Hlog & Hquiet).
    exists w', evs. split; [| now split].
    intros T next. unfold bind at 1. cbn [ret]. apply Hnext.
Qed.

Lemma observed_cons_invoke (seen : option JsValue) (evs : list Event) :
  observed_error seen (EInvoke :: evs) = observed_error seen evs.
Proof. reflexivity. Qed.

Lemma observed_cons_failed (seen : option JsValue) (attempt retries : Z)
      (error : JsValue) (evs : list Event) :
  observed_error seen (EAttemptFailed attempt retries error :: evs)
  = observed_error (Some error) evs.
Proof. reflexivity. Qed.

Lemma observed_quiet_app (seen : option JsValue) (a b : list Event) :
  quiet a -> observed_error seen (a ++ b) = observed_error seen b.
Proof.
  intros Hq. now rewrite observed_app, (quiet_observed seen a Hq).
Qed.

Lemma invocations_quiet_app (a b : list Event) :
  quiet a -> invocations (a ++ b) = invocations b.
Proof.
  intros Hq. now rewrite invocations_app, (quiet_invocations a Hq).
Qed.

Lemma observed_some (error : JsValue) (evs : list Event) :
  exists error', observed_error (Some error) evs = Some error'.
Proof.
  revert error. induction evs as [| ev evs IH]; intros error.
  - now exists error.
  - destruct ev; cbn; try apply IH.
Qed.

(** The loop of [safeExecute] on an operation that never resolves in
    time, with [S n] attempts left: every attempt invokes the operation
    once, and the value thrown at the end is what the last invocation
    failed with, as it is (or the generic error when that value is
    falsy).  [w_last] is the state in which the last invocation runs. *)
Lemma safeExecute_from_fails {T} (fn : Operation T) (timeoutMs retries : Z) :
  always_fails fn -> logs_own_effects fn ->
  forall (n : nat) (attempt : Z) (lastError : option JsValue) (w : World),
  exists error w_last w' before after,
    failure_of timeoutMs (fst (fn w_last)) = Some error /\
    safeExecute_from fn timeoutMs retries (S n) attempt lastError w
    = (Throw (rethrown (Some error)), w') /\
    log w_last = log w ++ before ++ [EInvoke] /\
    log w' = log w_last ++ after /\
    invocations before = n /\
    invocations after = 0%nat /\
    observed_error lastError (before ++ EInvoke :: after) = Some error.
Proof.
  intros Hfail Hlog.
  induction n as [| n IH]; intros attempt lastError w.
  - cbn [safeExecute_from].
    destruct (race_fails fn timeoutMs w Hfail Hlog)
      as (w0 & error & w1 & evs1 & Hl0 & Hfn & Hrace & Hlog1 & Hq1).
    unfold try_catch at 1. rewrite Hrace.
    destruct (after_failure_run attempt retries error w1)
      as (w2 & evs2 & Hafter & Hlog2 & Hq2).
    rewrite Hafter.
    exists error, w0, w2, [],
      (evs1 ++ EAttemptFailed (attempt + 1) retries error :: evs2).
    split; [exact Hfn |]. split.
    { unfold throw_lastError, rethrown.
      destruct (truthy error); reflexivity. }
    split; [exact Hl0 |].
    split; [rewrite Hlog2, Hlog1; now rewrite <- app_assoc |].
    split; [reflexivity |].
    split.
    { rewrite (invocations_quiet_app _ _ Hq1).
      change (EAttemptFailed (attempt + 1) retries error :: evs2)
        with ([EAttemptFailed (attempt + 1) retries error] ++ evs2).
      rewrite invocations_app, (quiet_invocations _ Hq2). reflexivity. }
    cbn [app]. rewrite observed_cons_invoke, (observed_quiet_app _ _ _ Hq1).
    rewrite observed_cons_failed. apply (quiet_observed _ _ Hq2).
  - remember (S n) as m eqn:Hm. cbn [safeExecute_from].
    destruct (race_fails fn timeoutMs w Hfail Hlog)
      as (w0 & error0 & w1 & evs1 & Hl0 & _ & Hrace & Hlog1 & Hq1).
    unfold try_catch at 1. rewrite Hrace.
    destruct (after_failure_run attempt retries error0 w1)
      as (w2 & evs2 & Hafter & Hlog2 & Hq2).
    rewrite Hafter. subst m.
    destruct (IH (attempt + 1)%Z (Some error0) w2)
      as (error & w_last & w' & before & after & Hfn & Hrun & Hlast & Hend
          & Hinv & Hquiet & Hobs).
    exists error, w_last, w',
      (EInvoke :: evs1 ++ EAttemptFailed (attempt + 1) retries error0
               :: evs2 ++ before), after.
    split; [exact Hfn |]. split; [exact Hrun |].
    split.
    { rewrite Hlast, Hlog2, Hlog1, Hl0.
      repeat (rewrite <- app_assoc || rewrite <- app_comm_cons).
      reflexivity. }
    split; [exact Hend |].
    split.
    { cbn [invocations filter List.length].
      fold (invocations (evs1 ++ EAttemptFailed (attempt + 1) retries error0
                              :: evs2 ++ before)).
      rewrite (invocations_quiet_app _ _ Hq1).
      change (EAttemptFailed (attempt + 1) retries error0 :: evs2 ++ before)
        with ([EAttemptFailed (attempt + 1) retries error0]
                ++ evs2 ++ before).
      rewrite invocations_app, (invocations_quiet_app _ _ Hq2), Hinv.
      reflexivity. }
    split; [exact Hquiet |].
    cbn [app]. rewrite observed_cons_invoke.
    rewrite <- app_assoc, (observed_quiet_app _ _ _ Hq1).
    cbn [app]. rewrite observed_cons_failed.
    rewrite <- app_assoc, (observed_quiet_app _ _ _ Hq2).
    exact Hobs.
Qed.

Lemma always_throws_fails : always_fails always_throws.
Proof. intros w. exact I. Qed.

Lemma always_throws_logs_nothing : logs_own_effects always_throws.
Proof. intros w. exists []. cbn. now rewrite app_nil_r. Qed.

Lemma throws_attempt_number_fails : always_fails throws_attempt_number.
Proof. intros w. exact I. Qed.

Lemma throws_attempt_number_logs_nothing :
  logs_own_effects throws_attempt_number.
Proof. intros w. exists []. cbn. now rewrite app_nil_r. Qed.

(** C1, as the code has it.  When every invocation of the operation
    fails (it throws, or the timer fires first), [safeExecute] with
    [retries = 3] invokes it exactly three times and then fails.  The
    value it throws is what the third invocation failed with: the very
    value the operation rejected with there, or the error of the timer
    when the timer fired first; it is not a wrapper around it (only a
    falsy value is replaced by the generic error).  That value is also the
    error of the last warning the guard logs.  [w_last] is the state in
    which the third invocation runs: two invocations precede it and none
    follows. *)
Theorem safeExecute_three_attempts_rethrows_last_error
        {T : Type} (fn : Operation T) (timeoutMs : Z) (w : World) :
  always_fails fn -> logs_own_effects fn ->
  exists error w_last w' before after,
    failure_of timeoutMs (fst (fn w_last)) = Some error /\
    safeExecute fn timeoutMs 3 w
    = (Throw (if truthy error then error else all_attempts_failed), w') /\
    log w_last = log w ++ before ++ [EInvoke] /\
    log w' = log w ++ before ++ EInvoke :: after /\
    invocations before = 2%nat /\
    invocations after = 0%nat /\
    invocations (before ++ EInvoke :: after) = 3%nat /\
    last_observed_error (before ++ EInvoke :: after) = Some error.
Proof.
  intros Hfail Hlog. unfold safeExecute, last_observed_error.
  change (Z.to_nat 3) with 3%nat.
  destruct (safeExecute_from_fails fn timeoutMs 3 Hfail Hlog 2 0%Z None w)
    as (error & w_last & w' & before & after & Hfn & Hrun & Hlast & Hend
        & Hinv & Hquiet & Hobs).
  exists error, w_last, w', before, after.
  split; [exact Hfn |]. split; [exact Hrun |]. split; [exact Hlast |].
  split.
  { rewrite Hend, Hlast. rewrite <- !app_assoc. reflexivity. }
  split; [exact Hinv |]. split; [exact Hquiet |].
  split; [| exact Hobs].
  change (EInvoke :: after) with ([EInvoke] ++ after).
  rewrite !invocations_app, Hinv, Hquiet. reflexivity.
Qed.

Lemma safeExecute_three_attempts_rethrows_last_error_witness :
  always_fails throws_attempt_number /\
  logs_own_effects throws_attempt_number /\
  exists w',
    safeExecute throws_attempt_number 30000 3 initial_world
    = (Throw (new_Error "failure 3"), w') /\
    invocations (log w') = 3%nat /\
    last_observed_error (log w') = Some (new_Error "failure 3").
Proof.
  split; [exact throws_attempt_number_fails |].
  split; [exact throws_attempt_number_logs_nothing |].
  destruct (safeExecute_three_attempts_rethrows_last_error
              throws_attempt_number 30000 initial_world
              throws_attempt_number_fails
              throws_attempt_number_logs_nothing)
    as (error & w_last & w' & before & after & Hfn & Hrun & Hlast & Hend
        & Hinv & Hquiet & Hcount & Hobs).
  exists w'.
  assert (Herror : error = new_Error "failure 3").
  { unfold throws_attempt_number in Hfn. cbn [fst failure_of] in Hfn.
    rewrite Hlast in Hfn. cbn [initial_world log app] in Hfn.
    change (EInvoke :: nil) with ([EInvoke]) in Hfn.
    rewrite invocations_app, Hinv in Hfn.
    injection Hfn as <-. reflexivity. }
  rewrite Hrun, Hend, Herror. cbn [initial_world log app].
  rewrite <- Herror.
  split; [rewrite Herror; reflexivity |].
  split; [exact Hcount | exact Hobs].
Defined.

(** C1, as the specification words it, fails: for the operation that
    throws [new Error("boom")] on every invocation, what [safeExecute]
    throws after three attempts is that very error, whose name is
    [Error]; it is no [ExhaustedRetriesError]. *)
Lemma safeExecute_not_wrapped_counterexample :
  always_fails always_throws /\
  fst (safeExecute always_throws 30000 3 initial_world)
  = Throw (new_Error "boom") /\
  invocations (log (snd (safeExecute always_throws 30000 3 initial_world)))
  = 3%nat /\
  ~ (exists v,
        fst (safeExecute always_throws 30000 3 initial_world) = Throw v /\
        spec_is_ExhaustedRetriesError v).
Proof.
  split; [exact always_throws_fails |].
  split; [reflexivity |]. split; [reflexivity |].
  intros (v & Hv & Hspec).
  change (fst (safeExecute always_throws 30000 3 initial_world))
    with (@Throw unit (new_Error "boom")) in Hv.
  injection Hv as <-. cbn in Hspec. discriminate Hspec.
Qed.

(** The cleanup always discards the cached snapshot. *)
Lemma cleanup_after_timeout_discards_snapshot (w : World) :
  lastSnapshot (snd (cleanup_after_timeout w)) = None.
Proof.
  unfold_server. simpl_world.
  destruct (globalBrowser w) as [b |]; simpl_world;
    repeat (split_fault; simpl_world); reflexivity.
Qed.

(** When the driver does not reject the close, the cleanup also resets
    both handles. *)
Lemma cleanup_after_timeout_resets (w : World) :
  (forall n, driver_fault w n = None) ->
  (globalBrowser w = None -> globalPage w = None) ->
  globalBrowser (snd (cleanup_after_timeout w)) = None /\
  globalPage (snd (cleanup_after_timeout w)) = None /\
  lastSnapshot (snd (cleanup_after_timeout w)) = None.
Proof.
  intros Hok Hpair. unfold_server. simpl_world.
  destruct (globalBrowser w) as [b |] eqn:Hgb; simpl_world.
  - rewrite Hok. simpl_world. repeat split.
  - repeat split; auto.
Qed.

(** A single guarded attempt that fails with a timeout-classified error
    leaves no session behind, provided the close is not rejected. *)
Lemma safeExecute_timeout_teardown
      {T : Type} (fn : Operation T) (timeoutMs : Z) (w w1 : World)
      (error : JsValue) :
  race fn timeoutMs w = (Throw error, w1) ->
  is_timeout_error error = true ->
  (forall n, driver_fault w1 n = None) ->
  (globalBrowser w1 = None -> globalPage w1 = None) ->
  fst (safeExecute fn timeoutMs 1 w) = Throw error /\
  globalBrowser (snd (safeExecute fn timeoutMs 1 w)) = None /\
  globalPage (snd (safeExecute fn timeoutMs 1 w)) = None /\
  lastSnapshot (snd (safeExecute fn timeoutMs 1 w)) = None.
Proof.
  intros Hrace Htimeout Hok Hpair.
  unfold safeExecute. change (Z.to_nat 1) with 1%nat.
  cbn [safeExecute_from].
  unfold try_catch at 1 2 3 4. rewrite Hrace, Htimeout.
  change (0 <? 1 - 1)%Z with false.
  assert (Htruthy : truthy error = true).
  { destruct error; try discriminate Htimeout. reflexivity. }
  unfold throw_lastError. rewrite Htruthy.
  unfold_server. simpl_world.
  destruct (globalBrowser w1) as [b |] eqn:Hgb; simpl_world.
  - rewrite Hok. simpl_world. repeat split.
  - repeat split; auto.
Qed.

(** C2 fails when the driver rejects the close.  The operation never
    settles, so the timer fires and the error is timeout-classified; the
    browser is wedged and [close()] rejects.  The cached snapshot is
    discarded, but both handles are left as they were. *)
Theorem safeExecute_timeout_with_failing_close :
  let run := safeExecute never_settles 30000 1 wedged_world in
  fst run = Throw (timeout_error 30000) /\
  is_timeout_error (timeout_error 30000) = true /\
  globalBrowser (snd run) = Some 0%nat /\
  globalPage (snd run) = Some 1%nat /\
  lastSnapshot (snd run) = None.
Proof. repeat split; reflexivity. Qed.

(** The handler of unhandled rejections performs the same cleanup, and
    there the handles are reset even when the close is rejected. *)
Lemma cleanup_on_unhandled_rejection_resets (w : World) :
  (globalBrowser w = None -> globalPage w = None) ->
  globalBrowser (snd (cleanup_on_unhandled_rejection w)) = None /\
  globalPage (snd (cleanup_on_unhandled_rejection w)) = None /\
  lastSnapshot (snd (cleanup_on_unhandled_rejection w)) = None.
Proof.
  intros Hpair. unfold_server. simpl_world.
  destruct (globalBrowser w) as [b |] eqn:Hgb; simpl_world;
    repeat (split_fault; simpl_world); repeat split; auto.
Qed.

End ExecutionGuard.
